(** * gclients: HTTP client bindings for Prometheus and Alertmanager

    A shallow embedding of the request plumbing of the repository:
    - [prometheus/client.go]: the generic client ([URL], [Do], [Proxy]);
    - [prometheus/v1/api.go]: the Prometheus v1 wrapper ([apiClient.Do],
      [queryResult.UnmarshalJSON]);
    - the Alertmanager wrapper ([apiClient.Do]).

    Go strings are byte sequences and are modelled by [string]; a Go
    [map[string]T] is a [gmap string T]; integers are [Z]. *)

From Stdlib Require Import ZArith Lia Ascii DecimalString.
From stdpp Require Import base strings gmap list.

Local Open Scope Z_scope.

(* ===================================================================== *)
(** * Go library functions used by the clients *)
(* ===================================================================== *)

(** ** Package [strings] *)
Module strings.

(** [strings.HasPrefix s prefix]. *)
Fixpoint HasPrefix (s prefix : string) : bool :=
  match prefix, s with
  | EmptyString, _ => true
  | String c p', String d s' => if decide (c = d) then HasPrefix s' p' else false
  | String _ _, EmptyString => false
  end.

(** [s[n:]], clipped at the end of [s]. *)
Fixpoint drop (n : nat) (s : string) : string :=
  match n, s with
  | O, _ => s
  | S n', String _ s' => drop n' s'
  | S _, EmptyString => EmptyString
  end.

(** [strings.Contains s substr]. *)
Fixpoint Contains (s substr : string) : bool :=
  HasPrefix s substr ||
  match s with
  | EmptyString => false
  | String _ s' => Contains s' substr
  end.

(** [strings.IndexByte s c >= 0]. *)
Fixpoint ContainsByte (s : string) (c : ascii) : bool :=
  match s with
  | EmptyString => false
  | String d s' => if decide (c = d) then true else ContainsByte s' c
  end.

(** The loop of [strings.Replace s old new -1] for a non-empty [old]:
    the non-overlapping occurrences of [old] are replaced from left to
    right.  [n] bounds the number of iterations; the length of [s]
    plus one is enough. *)
Fixpoint replaceLoop (n : nat) (old new s : string) : string :=
  match n with
  | O => s
  | S n' =>
      if HasPrefix s old
      then new +:+ replaceLoop n' old new (drop (String.length old) s)
      else match s with
           | EmptyString => EmptyString
           | String c s' => String c (replaceLoop n' old new s')
           end
  end.

(** With an empty [old], Go inserts [new] at the start of the string
    and after every character. *)
Fixpoint intersperse (new s : string) : string :=
  match s with
  | EmptyString => new
  | String c s' => new +:+ String c (intersperse new s')
  end.

(** [strings.Replace s old new -1]. *)
Definition ReplaceAll (s old new : string) : string :=
  match old with
  | EmptyString => intersperse new s
  | String _ _ => replaceLoop (S (String.length s)) old new s
  end.

(** [strings.TrimRight s "/"]. *)
Fixpoint TrimRightSlash (s : string) : string :=
  match s with
  | EmptyString => EmptyString
  | String c s' =>
      match TrimRightSlash s' with
      | EmptyString => if decide (c = "/"%char) then EmptyString
                       else String c EmptyString
      | r => String c r
      end
  end.

End strings.

(** ** Package [path] *)
Module path.

(** The elements of a path between slashes. *)
Fixpoint split (s : string) : list string :=
  match s with
  | EmptyString => [EmptyString]
  | String c s' =>
      if decide (c = "/"%char) then EmptyString :: split s'
      else match split s' with
           | e :: es => String c e :: es
           | [] => [String c EmptyString]
           end
  end.

(** One step of [path.Clean]: the output elements are kept in reverse
    order in [out]. *)
Definition cleanStep (rooted : bool) (out : list string) (e : string)
  : list string :=
  if decide (e = EmptyString) then out
  else if decide (e = ".") then out
  else if decide (e = "..") then
    match out with
    | top :: rest =>
        if decide (top = "..") then ".." :: out else rest
    | [] => if rooted then [] else [".."]
    end
  else e :: out.

Fixpoint joinSlash (es : list string) : string :=
  match es with
  | [] => EmptyString
  | [e] => e
  | e :: es' => e +:+ "/" +:+ joinSlash es'
  end.

(** [path.Clean]. *)
Definition Clean (p : string) : string :=
  match p with
  | EmptyString => "."
  | String c _ =>
      let rooted := bool_decide (c = "/"%char) in
      let out := rev (fold_left (cleanStep rooted) (split p) []) in
      match rooted, out with
      | true, _ => "/" +:+ joinSlash out
      | false, [] => "."
      | false, _ => joinSlash out
      end
  end.

(** [path.Join a b]. *)
Definition Join (a b : string) : string :=
  match a, b with
  | EmptyString, EmptyString => EmptyString
  | EmptyString, _ => Clean b
  | _, EmptyString => Clean a
  | _, _ => Clean (a +:+ "/" +:+ b)
  end.

End path.

(** ** Package [encoding/base64] *)
Module base64.

Definition alphabet : string :=
  "ABCDEFGHIJKLMNOPQRSTUVWXYZabcdefghijklmnopqrstuvwxyz0123456789+/".

Definition digit (n : nat) : ascii :=
  match String.get n alphabet with
  | Some c => c
  | None => "="%char
  end.

(** [base64.StdEncoding.EncodeToString]. *)
Fixpoint EncodeToString (s : string) : string :=
  match s with
  | EmptyString => EmptyString
  | String a EmptyString =>
      let a := nat_of_ascii a in
      String (digit (a / 4)) (String (digit ((a mod 4) * 16)) "==")
  | String a (String b EmptyString) =>
      let a := nat_of_ascii a in
      let b := nat_of_ascii b in
      String (digit (a / 4))
        (String (digit ((a mod 4) * 16 + b / 16))
           (String (digit ((b mod 16) * 4)) "="))
  | String a (String b (String c r)) =>
      let a := nat_of_ascii a in
      let b := nat_of_ascii b in
      let c := nat_of_ascii c in
      String (digit (a / 4))
        (String (digit ((a mod 4) * 16 + b / 16))
           (String (digit ((b mod 16) * 4 + c / 64))
              (String (digit (c mod 64)) (EncodeToString r))))
  end%nat.

End base64.

(** ** Package [fmt] *)
Module fmt.

(** The verb [%d] applied to an [int]. *)
Definition d (n : Z) : string := NilZero.string_of_int (Z.to_int n).

(** The verb [%q] applied to a string without characters to escape. *)
Definition q (s : string) : string :=
  String "034"%char (s +:+ String "034"%char EmptyString).

(** The verb [%t] applied to a [bool]. *)
Definition t (b : bool) : string := if b then "true" else "false".

End fmt.

(** ** Errors

    A Go [error] is an interface value.  The concrete error types of the
    repository are kept apart; every error made by a library
    ([net/http], [encoding/json], [context], [fmt.Errorf]) is an
    [errorString]. *)

(** [v1.ErrorType]. *)
Abbreviation ErrorType := string (only parsing).

Inductive error : Type :=
| v1Error (Type_ : ErrorType) (Msg : string)
| clientError (code : Z) (msg : string)
| errorString (s : string).

(** ** Package [net/http] *)
Module http.

Definition StatusOK : Z := 200.
Definition MethodGet : string := "GET".
Definition MethodPost : string := "POST".
Definition MethodPut : string := "PUT".
Definition MethodDelete : string := "DELETE".

(** [http.Header] is a [map[string][]string].  The keys used by the
    clients, [Authorization] and [Content-Type], are in canonical
    form already. *)
Abbreviation Header := (gmap string (list string)) (only parsing).

Definition Header_Set (h : Header) (key value : string) : Header :=
  <[key := [value]]> h.

Definition Header_Add (h : Header) (key value : string) : Header :=
  <[key := default [] (h !! key) ++ [value]]> h.

(** A [context.Context] that is not nil: [ctxErr] is what [ctx.Err()]
    reports once [ctx.Done()] is closed. *)
Record Context := { ctxErr : error }.

Record Request := {
  Method : string;
  URL : string;
  ReqHeader : Header;
  ReqBody : string;
  ReqContext : option Context
}.

(** [req.WithContext(ctx)]. *)
Definition WithContext (req : Request) (ctx : Context) : Request :=
  {| Method := Method req; URL := URL req; ReqHeader := ReqHeader req;
     ReqBody := ReqBody req; ReqContext := Some ctx |}.

Definition setHeader (req : Request) (h : Header) : Request :=
  {| Method := Method req; URL := URL req; ReqHeader := h;
     ReqBody := ReqBody req; ReqContext := ReqContext req |}.

(** [basicAuth] of [net/http]. *)
Definition basicAuth (username password : string) : string :=
  base64.EncodeToString (username +:+ ":" +:+ password).

(** [req.SetBasicAuth(username, password)]. *)
Definition SetBasicAuth (req : Request) (username password : string)
  : Request :=
  setHeader req
    (Header_Set (ReqHeader req) "Authorization"
       ("Basic " +:+ basicAuth username password)).

(** The body of a response is a stream owned by the transport.  What a
    read or a close returns is decided by the network; it may depend on
    how many times [Close] was called before. *)
Record ReadCloser := {
  ReadAll : nat -> string * option error;
  Close : nat -> option error
}.

Record Response := {
  StatusCode : Z;
  Body : ReadCloser
}.

(** [http.RoundTripper], and [http.Client] with its [Do]. *)
Definition RoundTripper : Type :=
  Request -> option Response * option error.

Record Client := { Transport : RoundTripper }.

Definition Client_Do (c : Client) (req : Request)
  : option Response * option error :=
  Transport c req.

End http.

(** ** Package [net/url] *)
Module url.

(** [url.URL], with the fields the clients read or write. *)
Record URL := {
  Scheme : string;
  Host : string;
  Path : string;
  RawQuery : string
}.

Definition setPath (u : URL) (p : string) : URL :=
  {| Scheme := Scheme u; Host := Host u; Path := p; RawQuery := RawQuery u |}.

(** [url.Values]: the parameters of a query, with [Set] and [Add]. *)
Definition Values_Set (v : gmap string (list string)) (key value : string)
  : gmap string (list string) :=
  <[key := [value]]> v.

Definition Values_Add (v : gmap string (list string)) (key value : string)
  : gmap string (list string) :=
  <[key := default [] (v !! key) ++ [value]]> v.

(** [u.RawQuery = q]. *)
Definition setRawQuery (u : URL) (q : string) : URL :=
  {| Scheme := Scheme u; Host := Host u; Path := Path u; RawQuery := q |}.

End url.

(** ** What a call of a client's [Do] comes to

    [Return resp body err] is a normal return; a nil [*http.Response] is
    [None] and a nil [error] is [None].  [Panic] is a run-time panic, and
    [Pending] a call that has not returned yet. *)
Inductive outcome : Type :=
| Return (resp : option http.Response) (body : string) (err : option error)
| Panic
| Pending.

(** [err.Error()]. *)
Definition error_Error (e : error) : string :=
  match e with
  | v1Error t m => t +:+ ": " +:+ m
  | clientError code msg => msg +:+ " (code: " +:+ fmt.d code +:+ ")"
  | errorString s => s
  end.

(** ** Package [github.com/levigross/grequests] *)
Module grequests.

Record RequestOptions := {
  Data : gmap string string;
  Params : gmap string string;
  RequestTimeout : Z;
  InsecureSkipVerify : bool;
  Auth : list string;
  Headers : gmap string string
}.

Record Response := {
  StatusCode : Z;
  Text : string
}.

End grequests.

(* ===================================================================== *)
(** * [prometheus/client.go]: the generic client *)
(* ===================================================================== *)
Module prometheus.

(** [Config]: the parameters of a new client. *)
Record Config := {
  Address : string;
  BearerToken : string;
  Username : string;
  Password : string;
  Timeout : Z;
  RoundTripper : option http.RoundTripper
}.

Record httpClient := {
  endpoint : url.URL;
  username : string;
  password : string;
  bearerToken : string;
  timeout : Z;
  client : http.Client
}.

(** [cfg.roundTripper()]. *)
Definition roundTripper (DefaultRoundTripper : http.RoundTripper)
  (cfg : Config) : http.RoundTripper :=
  match RoundTripper cfg with
  | None => DefaultRoundTripper
  | Some rt => rt
  end.

(** [NewClient]; [url.Parse] and the package variable
    [DefaultRoundTripper] are given. *)
Definition NewClient (Parse : string -> url.URL + error)
  (DefaultRoundTripper : http.RoundTripper) (cfg : Config)
  : httpClient + error :=
  match Parse (Address cfg) with
  | inr err => inr err
  | inl u =>
      inl {| endpoint := url.setPath u (strings.TrimRightSlash (url.Path u));
             bearerToken := BearerToken cfg;
             username := Username cfg;
             password := Password cfg;
             timeout := Timeout cfg;
             client := {| http.Transport :=
                            roundTripper DefaultRoundTripper cfg |} |}
  end.

(** The body of the loop of [URL]. *)
Definition substitute (p : string) (kv : string * string) : string :=
  strings.ReplaceAll p (":" +:+ kv.1) kv.2.

(** [httpClient.URL].  [args] lists the entries of the Go map in the
    order in which [range] yields them; the language leaves that order
    open (see [ranges]). *)
Definition URL (c : httpClient) (ep : string) (args : list (string * string))
  : url.URL :=
  let p := path.Join (url.Path (endpoint c)) ep in
  let p := fold_left substitute args p in
  url.setPath (endpoint c) p.

(** [order] is a sequence in which [range] may yield the entries of the
    map [m]: every entry once. *)
Definition ranges (m : gmap string string) (order : list (string * string))
  : Prop :=
  order ≡ₚ map_to_list m.

(** *** [Do]: authentication *)

(** Lines 280 to 287 of [Do]: the request handed to the transport. *)
Definition authenticate (c : httpClient) (ctx : option http.Context)
  (req : http.Request) : http.Request :=
  let req := match ctx with
             | Some cx => http.WithContext req cx
             | None => req
             end in
  if negb (bool_decide (username c = EmptyString)) then
    http.SetBasicAuth req (username c) (password c)
  else if negb (bool_decide (bearerToken c = EmptyString)) then
    http.setHeader req
      (http.Header_Add (http.ReqHeader req) "Authorization"
         ("Bearer " +:+ bearerToken c))
  else req.

(** *** [Do]: the drain of the body against the cancellation

    After a successful round trip two goroutines run: the caller of [Do],
    at the [select], and the drain, which reads the body, assigns [body]
    and [err] and closes [done].  The variables [body] and [err] are
    shared.  A state of the call holds the place of each goroutine, the
    shared variables, the two channels, and the history of the call.

    The steps of the two goroutines are interleaved by a schedule.  The
    drain assigns [err] before it closes [done], and the caller assigns
    [err] before it waits for [done]: nothing in the program orders these
    two assignments, so both orders are runs of the program.

    Every run of this machine is a run of the program.  The two
    assignments to [err] are a data race, so the program may show more
    on the path of the cancellation than the machine does: the test of
    line 310 may find either of the two values, not only the one
    assigned last here.  What is said of [err] on that path is therefore
    said of single runs only; the calls of [Close], [body] and the end of
    the call do not depend on it. *)

Inductive event : Type :=
| EvClose                                   (* resp.Body.Close() is called *)
| EvStore (drain : bool) (e : option error) (* err is assigned *)
| EvSelect (cancelled : bool).              (* the case select takes *)

Inductive mainPC : Type :=
| AtSelect                    (* select { *)
| AtClose                     (* case <-ctx.Done(): resp.Body.Close() *)
| AtAssign (r : option error) (*   err = (its result) *)
| AtWait                      (*   <-done *)
| AtCheck                     (*   if err == nil { err = ctx.Err() } *)
| AtReturn                    (* return resp, body, err *)
| Finished (body : string) (err : option error).

Inductive drainPC : Type :=
| Reading                     (* body, err = io.ReadAll(resp.Body) *)
| Signal                      (* close(done) *)
| Exited.

Record state := {
  main : mainPC;
  drain : drainPC;
  body : string;
  err : option error;
  done : bool;
  ctxDone : bool;
  events : list event
}.

(** The number of calls of [resp.Body.Close()] in a history. *)
Fixpoint closes (evs : list event) : nat :=
  match evs with
  | [] => 0
  | EvClose :: evs' => S (closes evs')
  | _ :: evs' => closes evs'
  end.

(** What the scheduler and the world do next: run the caller ([prefer]
    tells which case [select] takes when both are ready, where Go picks
    at random), run the drain, or cancel the context. *)
Inductive action : Type :=
| Main (prefer : bool)
| Drain
| Cancel.

Definition stepMain (resp : http.Response) (ctx : http.Context)
  (prefer : bool) (s : state) : state :=
  match main s with
  | AtSelect =>
      if ctxDone s && (prefer || negb (done s)) then
        {| main := AtClose; drain := drain s; body := body s; err := err s;
           done := done s; ctxDone := ctxDone s;
           events := events s ++ [EvSelect true] |}
      else if done s then
        {| main := AtReturn; drain := drain s; body := body s; err := err s;
           done := done s; ctxDone := ctxDone s;
           events := events s ++ [EvSelect false] |}
      else s
  | AtClose =>
      {| main := AtAssign (http.Close (http.Body resp) (closes (events s)));
         drain := drain s; body := body s; err := err s;
         done := done s; ctxDone := ctxDone s;
         events := events s ++ [EvClose] |}
  | AtAssign r =>
      {| main := AtWait; drain := drain s; body := body s; err := r;
         done := done s; ctxDone := ctxDone s;
         events := events s ++ [EvStore false r] |}
  | AtWait =>
      if done s then
        {| main := AtCheck; drain := drain s; body := body s; err := err s;
           done := done s; ctxDone := ctxDone s; events := events s |}
      else s
  | AtCheck =>
      {| main := AtReturn; drain := drain s; body := body s;
         err := match err s with
                | None => Some (http.ctxErr ctx)
                | Some e => Some e
                end;
         done := done s; ctxDone := ctxDone s; events := events s |}
  | AtReturn =>
      (* the results are evaluated, then the deferred function closes
         the body *)
      {| main := Finished (body s) (err s); drain := drain s;
         body := body s; err := err s;
         done := done s; ctxDone := ctxDone s;
         events := events s ++ [EvClose] |}
  | Finished _ _ => s
  end.

Definition stepDrain (resp : http.Response) (s : state) : state :=
  match drain s with
  | Reading =>
      let r := http.ReadAll (http.Body resp) (closes (events s)) in
      {| main := main s; drain := Signal; body := r.1; err := r.2;
         done := done s; ctxDone := ctxDone s;
         events := events s ++ [EvStore true r.2] |}
  | Signal =>
      {| main := main s; drain := Exited; body := body s; err := err s;
         done := true; ctxDone := ctxDone s; events := events s |}
  | Exited => s
  end.

Definition step (resp : http.Response) (ctx : http.Context)
  (s : state) (a : action) : state :=
  match a with
  | Main prefer => stepMain resp ctx prefer s
  | Drain => stepDrain resp s
  | Cancel =>
      {| main := main s; drain := drain s; body := body s; err := err s;
         done := done s; ctxDone := true; events := events s |}
  end.

(** The state at the [select]: the drain has been started, [err] is nil. *)
Definition start : state :=
  {| main := AtSelect; drain := Reading; body := EmptyString; err := None;
     done := false; ctxDone := false; events := [] |}.

Definition exec (resp : http.Response) (ctx : http.Context)
  (sched : list action) : state :=
  fold_left (step resp ctx) sched start.

(** One call of [Do] as it is seen from outside: its outcome, the
    request given to the transport and the history of the body. *)
Record run := {
  result : outcome;
  sent : http.Request;
  history : list event
}.

(** [httpClient.Do], under the schedule [sched]. *)
Definition Do (c : httpClient) (sched : list action)
  (ctx : option http.Context) (req : http.Request) : run :=
  let req := authenticate c ctx req in
  match http.Client_Do (client c) req with
  | (resp, Some e) =>
      {| result := Return None EmptyString (Some e); sent := req;
         history := match resp with Some _ => [EvClose] | None => [] end |}
  | (None, None) =>
      (* resp.Body on a nil response *)
      {| result := Panic; sent := req; history := [] |}
  | (Some resp, None) =>
      match ctx with
      | None =>
          (* ctx.Done() on a nil interface; the deferred function runs *)
          {| result := Panic; sent := req; history := [EvClose] |}
      | Some cx =>
          let s := exec resp cx sched in
          {| result := match main s with
                       | Finished b e => Return (Some resp) b e
                       | _ => Pending
                       end;
             sent := req;
             history := events s |}
      end
  end.

(** *** [Proxy] *)

(** [time.Duration(n) * time.Second] on 64-bit integers. *)
Definition seconds (n : Z) : Z :=
  (n * 1000000000 + 2 ^ 63) mod 2 ^ 64 - 2 ^ 63.

(** Lines 323 to 333 of [Proxy]: the options given to [grequests]. *)
Definition requestOptions (c : httpClient)
  (params data : gmap string string) : grequests.RequestOptions :=
  let auth :=
    if negb (bool_decide (username c = EmptyString)) &&
       negb (bool_decide (password c = EmptyString))
    then [username c; password c] else [] in
  let headers : gmap string string :=
    if negb (bool_decide (username c = EmptyString)) &&
       negb (bool_decide (password c = EmptyString))
    then ∅
    else if negb (bool_decide (bearerToken c = EmptyString))
    then {[ "Authorization" := "Bearer " +:+ bearerToken c ]}
    else ∅ in
  {| grequests.Data := data;
     grequests.Params := params;
     grequests.RequestTimeout := seconds (timeout c);
     grequests.InsecureSkipVerify := true;
     grequests.Auth := auth;
     grequests.Headers := headers |}.

(** [httpClient.Proxy]; [urlString] is the method [String] of [url.URL] and [send]
    stands for [grequests.Get], [Post], [Put] and [Delete], told apart by
    the verb. *)
Definition Proxy (urlString : url.URL -> string)
  (send : string -> string -> grequests.RequestOptions ->
          option grequests.Response * option error)
  (c : httpClient) (method url : string) (params data : gmap string string)
  : option grequests.Response * option error :=
  let url := urlString (endpoint c) +:+ url in
  let ro := requestOptions c params data in
  if bool_decide (method = http.MethodGet) then send "GET" url ro
  else if bool_decide (method = http.MethodPost) then send "POST" url ro
  else if bool_decide (method = http.MethodPut) then send "PUT" url ro
  else if bool_decide (method = http.MethodDelete) then send "DELETE" url ro
  else (None, Some (errorString
          ("oh no, method " +:+ method +:+ " has not been implemented"))).

(** The interface [Client]. *)
Record Client := {
  Client_URL : string -> list (string * string) -> url.URL;
  Client_Do : option http.Context -> http.Request -> outcome;
  Client_Proxy : string -> string -> gmap string string ->
                 gmap string string ->
                 option grequests.Response * option error
}.

End prometheus.

(** ** What a call of a binding comes to

    [Reply a err] is a normal return of a value and an error; [Panics]
    and [Waits] are as for [outcome]. *)
Inductive reply (A : Type) : Type :=
| Reply (a : A) (err : option error)
| Panics
| Waits.

Arguments Reply {A} a err.
Arguments Panics {A}.
Arguments Waits {A}.

(* ===================================================================== *)
(** * [prometheus/v1/api.go]: the Prometheus v1 wrapper *)
(* ===================================================================== *)
Module v1.

Definition statusAPIError : Z := 422.

Definition apiPrefix : string := "/api/v1".
Definition epQuery : string := apiPrefix +:+ "/query".
Definition epQueryRange : string := apiPrefix +:+ "/query_range".
Definition epLabels : string := apiPrefix +:+ "/labels".
Definition epLabelValues : string := apiPrefix +:+ "/label/:name/values".
Definition epSeries : string := apiPrefix +:+ "/series".

(** The values of [ErrorType]. *)
Definition ErrBadData : ErrorType := "bad_data".
Definition ErrTimeout : ErrorType := "timeout".
Definition ErrCanceled : ErrorType := "canceled".
Definition ErrExec : ErrorType := "execution".
Definition ErrBadResponse : ErrorType := "bad_response".

(** [model.ValueType] of [github.com/prometheus/common/model]. *)
Inductive ValueType : Type :=
| ValNone
| ValScalar
| ValVector
| ValMatrix
| ValString.

(** [model.ValueType.String]. *)
Definition ValueType_String (t : ValueType) : string :=
  match t with
  | ValNone => "<ValNone>"
  | ValScalar => "scalar"
  | ValVector => "vector"
  | ValMatrix => "matrix"
  | ValString => "string"
  end.

(** [apiResponse]: the envelope of every answer. *)
Record apiResponse := {
  Status : string;
  Data : string;
  ErrorType_ : ErrorType;
  Error : string
}.

Section Decoding.

(** The shapes of [model.Scalar], [model.Vector] and [model.Matrix]. *)
Variables Scalar Vector Matrix : Type.

(** A [model.Value] held by a [queryResult]. *)
Inductive Value : Type :=
| ScalarValue (sv : Scalar)
| VectorValue (vv : Vector)
| MatrixValue (mv : Matrix).

(** [encoding/json]: the first pass over a query result, which decodes
    [resultType] and keeps [result] raw, and the decoders of the three
    shapes, which leave what they decoded in their target also when they
    fail. *)
Variable unmarshalTyped : string -> (ValueType * string) + error.
Variable unmarshalScalar : string -> Scalar * option error.
Variable unmarshalVector : string -> Vector * option error.
Variable unmarshalMatrix : string -> Matrix * option error.

(** [queryResult]; the field [Result] is never assigned and is left out. *)
Record queryResult := {
  Type_ : ValueType;
  v : option Value
}.

(** [queryResult.UnmarshalJSON]: the receiver after the call, and the
    error. *)
Definition UnmarshalJSON (qr : queryResult) (b : string)
  : queryResult * option error :=
  match unmarshalTyped b with
  | inr err => (qr, Some err)
  | inl (t, raw) =>
      match t with
      | ValScalar =>
          let r := unmarshalScalar raw in
          ({| Type_ := Type_ qr; v := Some (ScalarValue r.1) |}, r.2)
      | ValVector =>
          let r := unmarshalVector raw in
          ({| Type_ := Type_ qr; v := Some (VectorValue r.1) |}, r.2)
      | ValMatrix =>
          let r := unmarshalMatrix raw in
          ({| Type_ := Type_ qr; v := Some (MatrixValue r.1) |}, r.2)
      | _ =>
          (qr, Some (errorString
                       ("unexpected value type " +:+
                        fmt.q (ValueType_String t))))
      end
  end.

End Decoding.

(** [apiClient.Do]; [unmarshal] is [json.Unmarshal] into an
    [apiResponse]. *)
Definition Do (unmarshal : string -> apiResponse + error)
  (c : prometheus.Client) (ctx : option http.Context) (req : http.Request)
  : outcome :=
  match prometheus.Client_Do c ctx req with
  | Return resp body (Some err) => Return resp body (Some err)
  | Return None body None => Panic
  | Return (Some resp) body None =>
      let code := http.StatusCode resp in
      if negb (Z.quot code 100 =? 2) && negb (code =? statusAPIError) then
        Return (Some resp) body
          (Some (v1Error ErrBadResponse
                   ("bad response code " +:+ fmt.d (http.StatusCode resp))))
      else
        match unmarshal body with
        | inr err =>
            Return (Some resp) body
              (Some (v1Error ErrBadResponse (error_Error err)))
        | inl result =>
            let err : option error := None in
            let err :=
              if negb (eqb (code =? statusAPIError)
                           (bool_decide (Status result = "error")))
              then Some (v1Error ErrBadResponse
                           "inconsistent body for response code")
              else err in
            let err :=
              if (code =? statusAPIError) &&
                 bool_decide (Status result = "error")
              then Some (v1Error (ErrorType_ result) (Error result))
              else err in
            Return (Some resp) (Data result) err
        end
  | Panic => Panic
  | Pending => Pending
  end.

(** [NewAPI]: the bindings talk to the client through [apiClient], which
    takes [URL] and [Proxy] from the client it embeds and has its own
    [Do]. *)
Definition NewAPI (unmarshal : string -> apiResponse + error)
  (c : prometheus.Client) : prometheus.Client :=
  {| prometheus.Client_URL := prometheus.Client_URL c;
     prometheus.Client_Do := Do unmarshal c;
     prometheus.Client_Proxy := prometheus.Client_Proxy c |}.

Section Bindings.

(** The shapes of [model.Scalar], [model.Vector], [model.Matrix] and
    [model.Metric], and their decoders. *)
Variables Scalar Vector Matrix Metric : Type.
Variable unmarshalTyped : string -> (ValueType * string) + error.
Variable unmarshalScalar : string -> Scalar * option error.
Variable unmarshalVector : string -> Vector * option error.
Variable unmarshalMatrix : string -> Matrix * option error.
Variable unmarshalLabelValues : string -> list string * option error.
Variable unmarshalSeries : string -> list Metric * option error.

(** [encoding/json]: the check of the syntax that [json.Unmarshal] makes
    before it calls an [UnmarshalJSON]. *)
Variable checkValid : string -> option error.

(** [time.Time] with [Format(time.RFC3339Nano)], [IsZero], [time.Unix]
    and [time.Now()]; [strconv.FormatFloat] of the seconds of a
    [time.Duration]. *)
Variable Time : Type.
Variable Format : Time -> string.
Variable IsZero : Time -> bool.
Variable Unix : Z -> Time.
Variable Now : Time.
Variable formatSeconds : Z -> string.

(** [net/url] and [net/http]: [u.Query()], [q.Encode()], [u.String()]
    and [http.NewRequest] with a nil body. *)
Variable urlQuery : url.URL -> gmap string (list string).
Variable Encode : gmap string (list string) -> string.
Variable urlString : url.URL -> string.
Variable NewRequest : string -> string -> http.Request + error.

(** [Range]: a sliced time range. *)
Record Range := {
  Start : Time;
  End_ : Time;
  Step : Z
}.

(** [json.Unmarshal(body, &qres)] for a fresh [queryResult]: the syntax
    is checked, then [UnmarshalJSON] is called with the text of the
    value, which is all of [body] when [body] has no white space around
    it, as the data of an envelope has. *)
Definition unmarshalQueryResult (body : string)
  : queryResult Scalar Vector Matrix * option error :=
  let qres := {| Type_ := ValNone; v := None |} in
  match checkValid body with
  | Some err => (qres, Some err)
  | None =>
      UnmarshalJSON Scalar Vector Matrix unmarshalTyped unmarshalScalar
        unmarshalVector unmarshalMatrix qres body
  end.

(** [httpAPI.Health]. *)
Definition Health (h : prometheus.Client) (ctx : option http.Context)
  : reply Z :=
  let u := prometheus.Client_URL h epQuery [] in
  let q := urlQuery u in
  let q := url.Values_Set q "query" "ALERTS{}" in
  let q := url.Values_Set q "time" (Format Now) in
  let u := url.setRawQuery u (Encode q) in
  match NewRequest http.MethodGet (urlString u) with
  | inr err => Reply 0 (Some err)
  | inl req =>
      match prometheus.Client_Do h ctx req with
      | Return res _ err =>
          Reply (match res with
                 | Some r => http.StatusCode r
                 | None => 0
                 end) err
      | Panic => Panics
      | Pending => Waits
      end
  end.

(** [httpAPI.Query]. *)
Definition Query (h : prometheus.Client) (ctx : option http.Context)
  (query : string) (ts : Time) : reply (option (Value Scalar Vector Matrix)) :=
  let u := prometheus.Client_URL h epQuery [] in
  let q := urlQuery u in
  let q := url.Values_Set q "query" query in
  let q := url.Values_Set q "time" (Format ts) in
  let u := url.setRawQuery u (Encode q) in
  match NewRequest "GET" (urlString u) with
  | inr err => Reply None (Some err)
  | inl req =>
      match prometheus.Client_Do h ctx req with
      | Return _ _ (Some err) => Reply None (Some err)
      | Return _ body None =>
          let r := unmarshalQueryResult body in
          Reply (v _ _ _ r.1) r.2
      | Panic => Panics
      | Pending => Waits
      end
  end.

(** [httpAPI.QueryRange]. *)
Definition QueryRange (h : prometheus.Client) (ctx : option http.Context)
  (query : string) (r : Range) : reply (option (Value Scalar Vector Matrix)) :=
  let u := prometheus.Client_URL h epQueryRange [] in
  let q := urlQuery u in
  let q := if negb (IsZero (Start r))
           then url.Values_Set q "start" (Format (Start r)) else q in
  let q := if negb (IsZero (End_ r))
           then url.Values_Set q "end" (Format (End_ r)) else q in
  let q := url.Values_Set q "query" query in
  let q := url.Values_Set q "step" (formatSeconds (Step r)) in
  let u := url.setRawQuery u (Encode q) in
  match NewRequest http.MethodGet (urlString u) with
  | inr err => Reply None (Some err)
  | inl req =>
      match prometheus.Client_Do h ctx req with
      | Return _ _ (Some err) => Reply None (Some err)
      | Return _ body None =>
          let r := unmarshalQueryResult body in
          Reply (v _ _ _ r.1) r.2
      | Panic => Panics
      | Pending => Waits
      end
  end.

(** [httpAPI.Labels]. *)
Definition Labels (h : prometheus.Client) (ctx : option http.Context)
  (start end_ : Z) (match_ : string) : reply (list string) :=
  let u := prometheus.Client_URL h epLabels [] in
  let q := urlQuery u in
  let q := if negb (start =? 0)
           then url.Values_Set q "start" (Format (Unix start)) else q in
  let q := if negb (end_ =? 0)
           then url.Values_Set q "end" (Format (Unix end_)) else q in
  let q := if negb (bool_decide (match_ = EmptyString))
           then url.Values_Set q "match[]" match_ else q in
  let u := url.setRawQuery u (Encode q) in
  match NewRequest http.MethodGet (urlString u) with
  | inr err => Reply [] (Some err)
  | inl req =>
      match prometheus.Client_Do h ctx req with
      | Return _ _ (Some err) => Reply [] (Some err)
      | Return _ body None =>
          let r := unmarshalLabelValues body in Reply r.1 r.2
      | Panic => Panics
      | Pending => Waits
      end
  end.

(** [httpAPI.LabelValues]. *)
Definition LabelValues (h : prometheus.Client) (ctx : option http.Context)
  (start end_ : Z) (label : string) : reply (list string) :=
  let u := prometheus.Client_URL h epLabelValues [("name", label)] in
  let q := urlQuery u in
  let q := if negb (start =? 0)
           then url.Values_Set q "start" (Format (Unix start)) else q in
  let q := if negb (end_ =? 0)
           then url.Values_Set q "end" (Format (Unix end_)) else q in
  let u := url.setRawQuery u (Encode q) in
  match NewRequest http.MethodGet (urlString u) with
  | inr err => Reply [] (Some err)
  | inl req =>
      match prometheus.Client_Do h ctx req with
      | Return _ _ (Some err) => Reply [] (Some err)
      | Return _ body None =>
          let r := unmarshalLabelValues body in Reply r.1 r.2
      | Panic => Panics
      | Pending => Waits
      end
  end.

(** [httpAPI.Series]. *)
Definition Series (h : prometheus.Client) (ctx : option http.Context)
  (start end_ : Z) (match_ : string) : reply (list Metric) :=
  let u := prometheus.Client_URL h epSeries [] in
  let q := urlQuery u in
  let q := if negb (start =? 0)
           then url.Values_Set q "start" (Format (Unix start)) else q in
  let q := if negb (end_ =? 0)
           then url.Values_Set q "end" (Format (Unix end_)) else q in
  let q := if negb (bool_decide (match_ = EmptyString))
           then url.Values_Set q "match[]" match_ else q in
  let u := url.setRawQuery u (Encode q) in
  match NewRequest http.MethodGet (urlString u) with
  | inr err => Reply [] (Some err)
  | inl req =>
      match prometheus.Client_Do h ctx req with
      | Return _ _ (Some err) => Reply [] (Some err)
      | Return _ body None =>
          let r := unmarshalSeries body in Reply r.1 r.2
      | Panic => Panics
      | Pending => Waits
      end
  end.

End Bindings.

(** [httpAPI.Proxy]. *)
Definition Proxy (h : prometheus.Client) (method url : string)
  (params data : gmap string string)
  : option grequests.Response * option error :=
  prometheus.Client_Proxy h method url params data.

End v1.

(* ===================================================================== *)
(** * The Alertmanager wrapper *)
(* ===================================================================== *)
Module alertmanager.

Definition apiPrefix : string := "/api/v2".
Definition epStatus : string := apiPrefix +:+ "/status".
Definition epSilence : string := apiPrefix +:+ "/silence/:id".
Definition epSilences : string := apiPrefix +:+ "/silences".
Definition epAlerts : string := apiPrefix +:+ "/alerts".

(** The interface [api.Client] of [client_golang]. *)
Record Client := {
  Client_URL : string -> list (string * string) -> url.URL;
  Client_Do : option http.Context -> http.Request -> outcome
}.

(** [apiClient.Do]. *)
Definition Do (c : Client) (ctx : option http.Context) (req : http.Request)
  : outcome :=
  let req :=
    http.setHeader req
      (http.Header_Set (http.ReqHeader req) "Content-Type"
         "application/json") in
  match Client_Do c ctx req with
  | Return resp body (Some err) => Return resp body (Some err)
  | Return None body None => Panic
  | Return (Some resp) body None =>
      let err :=
        if negb (http.StatusCode resp =? http.StatusOK)
        then Some (clientError (http.StatusCode resp) EmptyString)
        else None in
      Return (Some resp) body err
  | Panic => Panic
  | Pending => Pending
  end.

(** [NewStatusAPI], [NewAlertAPI] and [NewSilenceAPI] all wrap the client
    in an [apiClient], which takes [URL] from the client it embeds and
    has its own [Do]. *)
Definition apiClient (c : Client) : Client :=
  {| Client_URL := Client_URL c; Client_Do := Do c |}.

Definition NewStatusAPI (c : Client) : Client := apiClient c.
Definition NewAlertAPI (c : Client) : Client := apiClient c.
Definition NewSilenceAPI (c : Client) : Client := apiClient c.

(** [fmt.Errorf("error creating request: %v", err)]. *)
Definition creating (err : error) : error :=
  errorString ("error creating request: " +:+ error_Error err).

Section Bindings.

(** The shapes of [ServerStatus], [types.Silence], [Alert] and
    [ExtendedAlert], with their decoders and encoders of
    [encoding/json]. *)
Variables ServerStatus Silence Alert ExtendedAlert : Type.
Variable unmarshalStatus : string -> option ServerStatus * option error.
Variable unmarshalSilence : string -> Silence * option error.
Variable unmarshalSilences : string -> list Silence * option error.
Variable unmarshalAlerts : string -> list ExtendedAlert * option error.
Variable unmarshalSilenceID : string -> string * option error.
Variable encodeAlerts : list Alert -> string + error.
Variable encodeSilence : Silence -> string + error.

(** [net/url] and [net/http]: [q.Encode()], [u.String()] and
    [http.NewRequest] with its body. *)
Variable Encode : gmap string (list string) -> string.
Variable urlString : url.URL -> string.
Variable NewRequest : string -> string -> string -> http.Request + error.

(** [httpStatusAPI.Health]. *)
Definition Status_Health (h : Client) (ctx : option http.Context)
  : reply Z :=
  let u := Client_URL h epStatus [] in
  match NewRequest http.MethodGet (urlString u) EmptyString with
  | inr err => Reply 0 (Some (creating err))
  | inl req =>
      match Client_Do h ctx req with
      | Return res _ err =>
          Reply (match res with
                 | Some r => http.StatusCode r
                 | None => 0
                 end) err
      | Panic => Panics
      | Pending => Waits
      end
  end.

(** [httpStatusAPI.Get]. *)
Definition Status_Get (h : Client) (ctx : option http.Context)
  : reply (option ServerStatus) :=
  let u := Client_URL h epStatus [] in
  match NewRequest http.MethodGet (urlString u) EmptyString with
  | inr err => Reply None (Some (creating err))
  | inl req =>
      match Client_Do h ctx req with
      | Return _ _ (Some err) => Reply None (Some err)
      | Return _ body None =>
          let r := unmarshalStatus body in Reply r.1 r.2
      | Panic => Panics
      | Pending => Waits
      end
  end.

(** [httpAlertAPI.List]. *)
Definition Alert_List (h : Client) (ctx : option http.Context)
  (filter : list string) (receiver : string)
  (silenced inhibited active unprocessed : bool)
  : reply (list ExtendedAlert) :=
  let u := Client_URL h epAlerts [] in
  let params : gmap string (list string) := ∅ in
  let params :=
    fold_left (fun ps f => url.Values_Add ps "filter" f) filter params in
  let params := url.Values_Add params "silenced" (fmt.t silenced) in
  let params := url.Values_Add params "inhibited" (fmt.t inhibited) in
  let params := url.Values_Add params "active" (fmt.t active) in
  let params := url.Values_Add params "unprocessed" (fmt.t unprocessed) in
  let params := url.Values_Add params "receiver" receiver in
  let u := url.setRawQuery u (Encode params) in
  match NewRequest http.MethodGet (urlString u) EmptyString with
  | inr err => Reply [] (Some (creating err))
  | inl req =>
      match Client_Do h ctx req with
      | Return _ _ (Some err) => Reply [] (Some err)
      | Return _ body None =>
          let r := unmarshalAlerts body in Reply r.1 r.2
      | Panic => Panics
      | Pending => Waits
      end
  end.

(** [httpAlertAPI.Push]. *)
Definition Alert_Push (h : Client) (ctx : option http.Context)
  (alerts : list Alert) : reply unit :=
  let u := Client_URL h epAlerts [] in
  match encodeAlerts alerts with
  | inr err => Reply () (Some err)
  | inl buf =>
      match NewRequest http.MethodPost (urlString u) buf with
      | inr err => Reply () (Some (creating err))
      | inl req =>
          match Client_Do h ctx req with
          | Return _ _ err => Reply () err
          | Panic => Panics
          | Pending => Waits
          end
      end
  end.

(** [httpSilenceAPI.Get]. *)
Definition Silence_Get (h : Client) (ctx : option http.Context)
  (id : string) : reply (option Silence) :=
  let u := Client_URL h epSilence [("id", id)] in
  match NewRequest http.MethodGet (urlString u) EmptyString with
  | inr err => Reply None (Some (creating err))
  | inl req =>
      match Client_Do h ctx req with
      | Return _ _ (Some err) => Reply None (Some err)
      | Return _ body None =>
          let r := unmarshalSilence body in Reply (Some r.1) r.2
      | Panic => Panics
      | Pending => Waits
      end
  end.

(** [httpSilenceAPI.Expire]. *)
Definition Silence_Expire (h : Client) (ctx : option http.Context)
  (id : string) : reply unit :=
  let u := Client_URL h epSilence [("id", id)] in
  match NewRequest http.MethodDelete (urlString u) EmptyString with
  | inr err => Reply () (Some (creating err))
  | inl req =>
      match Client_Do h ctx req with
      | Return _ _ err => Reply () err
      | Panic => Panics
      | Pending => Waits
      end
  end.

(** [httpSilenceAPI.Set]. *)
Definition Silence_Set (h : Client) (ctx : option http.Context)
  (sil : Silence) : reply string :=
  let u := Client_URL h epSilences [] in
  match encodeSilence sil with
  | inr err => Reply EmptyString (Some err)
  | inl buf =>
      match NewRequest http.MethodPost (urlString u) buf with
      | inr err => Reply EmptyString (Some (creating err))
      | inl req =>
          match Client_Do h ctx req with
          | Return _ _ (Some err) => Reply EmptyString (Some err)
          | Return _ body None =>
              let r := unmarshalSilenceID body in Reply r.1 r.2
          | Panic => Panics
          | Pending => Waits
          end
      end
  end.

(** [httpSilenceAPI.List]. *)
Definition Silence_List (h : Client) (ctx : option http.Context)
  (filter : list string) : reply (list Silence) :=
  let u := Client_URL h epSilences [] in
  let params : gmap string (list string) := ∅ in
  let params :=
    fold_left (fun ps f => url.Values_Add ps "filter" f) filter params in
  let u := url.setRawQuery u (Encode params) in
  match NewRequest http.MethodGet (urlString u) EmptyString with
  | inr err => Reply [] (Some (creating err))
  | inl req =>
      match Client_Do h ctx req with
      | Return _ _ (Some err) => Reply [] (Some err)
      | Return _ body None =>
          let r := unmarshalSilences body in Reply r.1 r.2
      | Panic => Panics
      | Pending => Waits
      end
  end.

End Bindings.

End alertmanager.

(* ===================================================================== *)
(** * Sample values *)
(* ===================================================================== *)
Module sample.

(** A body that reads as [text]; a read that ends after the body was
    closed fails, and closing never fails. *)
Definition body (text : string) : http.ReadCloser :=
  {| http.ReadAll := fun closed =>
       match closed with
       | O => (text, None)
       | S _ => (EmptyString,
                 Some (errorString "http: read on closed response body"))
       end;
     http.Close := fun _ => None |}.

Definition response (code : Z) (text : string) : http.Response :=
  {| http.StatusCode := code; http.Body := body text |}.

Definition request : http.Request :=
  {| http.Method := "GET"; http.URL := "http://prom:9090/api/v1/query";
     http.ReqHeader := ∅; http.ReqBody := EmptyString;
     http.ReqContext := None |}.

Definition base : url.URL :=
  {| url.Scheme := "http"; url.Host := "prom:9090";
     url.Path := EmptyString; url.RawQuery := EmptyString |}.

Definition canceled : http.Context :=
  {| http.ctxErr := errorString "context canceled" |}.

(** A transport that answers every request with [code] and [text]. *)
Definition transport (code : Z) (text : string) : http.RoundTripper :=
  fun _ => (Some (response code text), None).

Definition client (user pass token : string) (code : Z) (text : string)
  : prometheus.httpClient :=
  {| prometheus.endpoint := base;
     prometheus.username := user;
     prometheus.password := pass;
     prometheus.bearerToken := token;
     prometheus.timeout := 30;
     prometheus.client := {| http.Transport := transport code text |} |}.

(** A client whose round trip succeeds with [code] and [text]. *)
Definition answering (code : Z) (text : string) : prometheus.Client :=
  {| prometheus.Client_URL := fun _ _ => base;
     prometheus.Client_Do := fun _ _ =>
       Return (Some (response code text)) text None;
     prometheus.Client_Proxy := fun _ _ _ _ => (None, None) |}.

Definition amAnswering (code : Z) (text : string) : alertmanager.Client :=
  {| alertmanager.Client_URL := fun _ _ => base;
     alertmanager.Client_Do := fun _ _ =>
       Return (Some (response code text)) text None |}.

(** Two bodies of Prometheus and the envelopes [json.Unmarshal] finds
    in them. *)
Definition errorBody : string :=
  "{" +:+ fmt.q "status" +:+ ":" +:+ fmt.q "error" +:+ ","
  +:+ fmt.q "errorType" +:+ ":" +:+ fmt.q "bad_data" +:+ ","
  +:+ fmt.q "error" +:+ ":" +:+ fmt.q "parse error" +:+ "}".

Definition successBody : string :=
  "{" +:+ fmt.q "status" +:+ ":" +:+ fmt.q "success" +:+ ","
  +:+ fmt.q "data" +:+ ":[]}".

Definition parseError : v1.apiResponse :=
  {| v1.Status := "error"; v1.Data := EmptyString;
     v1.ErrorType_ := "bad_data"; v1.Error := "parse error" |}.

Definition success : v1.apiResponse :=
  {| v1.Status := "success"; v1.Data := "[]";
     v1.ErrorType_ := EmptyString; v1.Error := EmptyString |}.

Definition unmarshal (b : string) : v1.apiResponse + error :=
  if bool_decide (b = errorBody) then inl parseError
  else if bool_decide (b = successBody) then inl success
  else inr (errorString "unexpected end of JSON input").

(** A body whose read breaks off with an error of the network, whether
    it was closed or not. *)
Definition broken : http.ReadCloser :=
  {| http.ReadAll := fun _ => ("par", Some (errorString "unexpected EOF"));
     http.Close := fun _ => None |}.

Definition brokenClient : prometheus.httpClient :=
  {| prometheus.endpoint := base;
     prometheus.username := EmptyString;
     prometheus.password := EmptyString;
     prometheus.bearerToken := EmptyString;
     prometheus.timeout := 30;
     prometheus.client :=
       {| http.Transport := fun _ =>
            (Some {| http.StatusCode := 200; http.Body := broken |}, None) |}
  |}.

(** The context is cancelled while the drain is reading: the caller
    takes the case of the cancellation, closes the body and assigns the
    result; then the drain ends its read and the caller returns. *)
Definition cancelThenDrain : list prometheus.action :=
  [prometheus.Cancel; prometheus.Main true; prometheus.Main true;
   prometheus.Main true; prometheus.Drain; prometheus.Drain;
   prometheus.Main true; prometheus.Main true; prometheus.Main true].

(** The same, but the read of the drain ends just after the caller took
    the case of the cancellation, before the caller closes the body. *)
Definition cancelDrainClose : list prometheus.action :=
  [prometheus.Cancel; prometheus.Main true; prometheus.Drain;
   prometheus.Drain; prometheus.Main true; prometheus.Main true;
   prometheus.Main true; prometheus.Main true; prometheus.Main true].

(** The drain ends first and the context is never cancelled. *)
Definition drainOnly : list prometheus.action :=
  [prometheus.Drain; prometheus.Drain; prometheus.Main false;
   prometheus.Main false].

(** Decoders of query results over toy shapes: a scalar is a number, a
    vector a list of numbers and a matrix a list of such lists. *)
Definition typed (b : string) : (v1.ValueType * string) + error :=
  if bool_decide (b = "vector:[]") then inl (v1.ValVector, "[]")
  else if bool_decide (b = "string:x") then inl (v1.ValString, "x")
  else inr (errorString ("unknown value type " +:+ fmt.q "unknown")).

Definition scalar (raw : string) : Z * option error := (0, None).
Definition vector (raw : string) : list Z * option error := ([], None).
Definition matrix (raw : string) : list (list Z) * option error := ([], None).

Definition emptyResult : v1.queryResult Z (list Z) (list (list Z)) :=
  {| v1.Type_ := v1.ValNone; v1.v := None |}.

(** Stand-ins for [net/url], [net/http] and [encoding/json] in the
    bindings: a query is written as its keys and first values, without
    escaping; every request can be made; an empty text is no JSON. *)
Definition urlQuery (u : url.URL) : gmap string (list string) := ∅.

Definition encode (q : gmap string (list string)) : string :=
  fold_right (fun kv acc =>
                kv.1 +:+ "=" +:+ default EmptyString (head kv.2) +:+ "&"
                +:+ acc)
    EmptyString (map_to_list q).

Definition urlString (u : url.URL) : string :=
  url.Scheme u +:+ "://" +:+ url.Host u +:+ url.Path u +:+ "?"
  +:+ url.RawQuery u.

Definition newRequest (method u : string) : http.Request + error :=
  inl {| http.Method := method; http.URL := u; http.ReqHeader := ∅;
         http.ReqBody := EmptyString; http.ReqContext := None |}.

Definition newRequestBody (method u body : string) : http.Request + error :=
  inl {| http.Method := method; http.URL := u; http.ReqHeader := ∅;
         http.ReqBody := body; http.ReqContext := None |}.

Definition badRequest (method u body : string) : http.Request + error :=
  inr (errorString "net/http: invalid method").

Definition valid (b : string) : option error :=
  if bool_decide (b = EmptyString)
  then Some (errorString "unexpected end of JSON input") else None.

(** A client whose every call fails in the transport. *)
Definition refusing : prometheus.Client :=
  {| prometheus.Client_URL := fun _ _ => base;
     prometheus.Client_Do := fun _ _ =>
       Return None EmptyString (Some (errorString "connection refused"));
     prometheus.Client_Proxy := fun _ _ _ _ => (None, None) |}.

(** Decoders of the Alertmanager over toy shapes: a silence is its
    text. *)
Definition silence (raw : string) : string * option error := (raw, None).

Definition alerts (l : list string) : string + error :=
  inr (errorString "json: unsupported value").

(** A decoder of label values: the text is the one value. *)
Definition names (raw : string) : list string * option error :=
  ([raw], None).

End sample.

(* ===================================================================== *)
(** * The vocabulary of the statements *)
(* ===================================================================== *)

(** Whether [apiClient.Do] goes on to decode the body: the guard of
    line 323. *)
Definition decodes (code : Z) : bool :=
  (Z.quot code 100 =? 2) || (code =? v1.statusAPIError).

(** The request the Alertmanager wrapper hands to the client it wraps. *)
Definition jsonRequest (req : http.Request) : http.Request :=
  http.setHeader req
    (http.Header_Set (http.ReqHeader req) "Content-Type" "application/json").

(** The value of the [Authorization] header for basic authentication. *)
Definition basic (c : prometheus.httpClient) : string :=
  "Basic " +:+ http.basicAuth (prometheus.username c) (prometheus.password c).

(** The value of the [Authorization] header for a bearer token. *)
Definition bearer (c : prometheus.httpClient) : string :=
  "Bearer " +:+ prometheus.bearerToken c.

(** The value assigned to [err] last in a history; nil before any
    assignment. *)
Definition lastStore (evs : list prometheus.event) : option error :=
  fold_left (fun acc ev => match ev with
                           | prometheus.EvStore _ e => e
                           | _ => acc
                           end) evs None.

(** [select] took the case of the cancellation. *)
Definition viaCtx (evs : list prometheus.event) : Prop :=
  prometheus.EvSelect true ∈ evs.

(** The drain has assigned the result of its read. *)
Definition drainStored (evs : list prometheus.event) : Prop :=
  ∃ rd, prometheus.EvStore true rd ∈ evs.

(** The caller has assigned the result of [Close]. *)
Definition closeStored (evs : list prometheus.event) : Prop :=
  ∃ cl, prometheus.EvStore false cl ∈ evs.

(** What holds of a state of the call, place by place. *)
Definition inv (ctx : http.Context) (s : prometheus.state) : Prop :=
  let evs := prometheus.events s in
  (prometheus.done s = true -> prometheus.drain s = prometheus.Exited) ∧
  (prometheus.drain s ≠ prometheus.Reading -> drainStored evs) ∧
  match prometheus.main s with
  | prometheus.AtSelect =>
      prometheus.closes evs = 0%nat ∧ ¬ viaCtx evs ∧
      prometheus.err s = lastStore evs
  | prometheus.AtClose =>
      prometheus.closes evs = 0%nat ∧ viaCtx evs ∧
      prometheus.err s = lastStore evs
  | prometheus.AtAssign _ =>
      prometheus.closes evs = 1%nat ∧ viaCtx evs ∧
      prometheus.err s = lastStore evs
  | prometheus.AtWait =>
      prometheus.closes evs = 1%nat ∧ viaCtx evs ∧
      prometheus.err s = lastStore evs ∧ closeStored evs
  | prometheus.AtCheck =>
      prometheus.closes evs = 1%nat ∧ viaCtx evs ∧
      prometheus.err s = lastStore evs ∧ closeStored evs ∧
      prometheus.done s = true
  | prometheus.AtReturn =>
      prometheus.done s = true ∧
      ((prometheus.closes evs = 1%nat ∧ viaCtx evs ∧ closeStored evs ∧
        prometheus.err s =
          Some (default (http.ctxErr ctx) (lastStore evs))) ∨
       (prometheus.closes evs = 0%nat ∧ ¬ viaCtx evs))
  | prometheus.Finished _ e =>
      prometheus.done s = true ∧
      ((prometheus.closes evs = 2%nat ∧ viaCtx evs ∧ closeStored evs ∧
        e = Some (default (http.ctxErr ctx) (lastStore evs))) ∨
       (prometheus.closes evs = 1%nat ∧ ¬ viaCtx evs))
  end.

(** [s] holds no colon. *)
Definition colonFree (s : string) : bool :=
  negb (strings.ContainsByte s ":"%char).

(** Every colon of [p] is followed by one of [names]: it starts the
    placeholder of a name for which a value is supplied. *)
Fixpoint covered (names : list string) (p : string) : bool :=
  match p with
  | EmptyString => true
  | String c r =>
      (if decide (c = ":"%char)
       then existsb (strings.HasPrefix r) names else true)
      && covered names r
  end.

(** No name of [names] is the start of another one. *)
Definition prefixFree (names : list string) : bool :=
  forallb (fun a =>
    forallb (fun b =>
      implb (strings.HasPrefix b a) (bool_decide (a = b))) names) names.

(** Names and values of the entries hold no colon. *)
Definition plain (args : list (string * string)) : bool :=
  forallb (fun kv => colonFree kv.1 && colonFree kv.2) args.

(** [strings.Replace p (":" + a) v -1]. *)
Definition fill (a v p : string) : string :=
  strings.ReplaceAll p (":" +:+ a) v.

(** The last byte of [s] is [c]; false for the empty string. *)
Fixpoint endsWith (s : string) (c : ascii) : bool :=
  match s with
  | EmptyString => false
  | String d EmptyString => bool_decide (d = c)
  | String _ r => endsWith r c
  end.

(** [k] slashes. *)
Fixpoint slashes (k : nat) : string :=
  match k with
  | O => EmptyString
  | S k' => String "/" (slashes k')
  end.

(** The methods [Proxy] knows. *)
Definition proxied : list string := ["GET"; "POST"; "PUT"; "DELETE"].

(** The drain runs to its end, then the caller runs to its end. *)
Definition finish : list prometheus.action :=
  [prometheus.Drain; prometheus.Drain;
   prometheus.Main false; prometheus.Main false; prometheus.Main false;
   prometheus.Main false; prometheus.Main false; prometheus.Main false].

(** An [httpClient] under the interface [Client], as [NewClient] returns
    it; its calls of [Do] run under the schedule [sched]. *)
Definition asClient (urlString : url.URL -> string)
  (send : string -> string -> grequests.RequestOptions ->
          option grequests.Response * option error)
  (c : prometheus.httpClient) (sched : list prometheus.action)
  : prometheus.Client :=
  {| prometheus.Client_URL := prometheus.URL c;
     prometheus.Client_Do := fun ctx req =>
       prometheus.result (prometheus.Do c sched ctx req);
     prometheus.Client_Proxy := prometheus.Proxy urlString send c |}.

(** What the drain leaves in the shared variables.  Once it has read,
    [body] holds what the read gave, and the read ended after at most
    one [Close]; as long as [select] has not taken the case of the
    cancellation the read ended before any [Close] and [err] holds its
    error.  The results of [Do] are the shared variables. *)
Definition drained (resp : http.Response) (s : prometheus.state) : Prop :=
  let evs := prometheus.events s in
  (prometheus.drain s ≠ prometheus.Reading ->
   ∃ k, (k <= 1)%nat ∧
        prometheus.body s = (http.ReadAll (http.Body resp) k).1 ∧
        (¬ viaCtx evs ->
         k = 0%nat ∧
         prometheus.err s = (http.ReadAll (http.Body resp) 0).2)) ∧
  (prometheus.ctxDone s = false -> ¬ viaCtx evs) ∧
  match prometheus.main s with
  | prometheus.Finished b e =>
      b = prometheus.body s ∧ (¬ viaCtx evs -> e = prometheus.err s)
  | _ => True
  end.


(* ===================================================================== *)
(** * The Prometheus v1 wrapper: status code against envelope *)
(* ===================================================================== *)

Lemma decodes_guard code :
  negb (Z.quot code 100 =? 2) && negb (code =? v1.statusAPIError)
  = negb (decodes code).
Proof. unfold decodes. by rewrite negb_orb. Qed.

(** C1, as stated, fails: with status code 500 and a body holding an
    envelope whose status is "error", code and envelope disagree, and
    the error returned names the status code, not the inconsistency. *)
Lemma v1_Do_bad_code_500 :
  let c := sample.answering 500 sample.errorBody in
  let r := v1.Do sample.unmarshal c None sample.request in
  sample.unmarshal sample.errorBody = inl sample.parseError ∧
  (500 =? v1.statusAPIError)
    ≠ bool_decide (v1.Status sample.parseError = "error") ∧
  r = Return (Some (sample.response 500 sample.errorBody)) sample.errorBody
        (Some (v1Error v1.ErrBadResponse "bad response code 500")) ∧
  r ≠ Return (Some (sample.response 500 sample.errorBody))
        (v1.Data sample.parseError)
        (Some (v1Error v1.ErrBadResponse
                 "inconsistent body for response code")).
Proof. repeat split; done. Qed.

(** C1, amended: after a successful round trip with a body that decodes
    as an envelope, if (code == 422) and (status == "error") disagree,
    [apiClient.Do] returns an error of kind bad_response that carries
    nothing of the envelope: for a status code 2xx (so for 200) it says
    that body and code are inconsistent, and for any other code it names
    the status code. *)
Theorem v1_Do_mismatch unmarshal c ctx req resp body env :
  prometheus.Client_Do c ctx req = Return (Some resp) body None ->
  unmarshal body = inl env ->
  (http.StatusCode resp =? v1.statusAPIError)
    ≠ bool_decide (v1.Status env = "error") ->
  v1.Do unmarshal c ctx req =
    if decodes (http.StatusCode resp)
    then Return (Some resp) (v1.Data env)
           (Some (v1Error v1.ErrBadResponse
                    "inconsistent body for response code"))
    else Return (Some resp) body
           (Some (v1Error v1.ErrBadResponse
                    ("bad response code " +:+ fmt.d (http.StatusCode resp)))).
Proof.
  intros Hdo Hun Hne. unfold v1.Do. rewrite Hdo, decodes_guard.
  destruct (decodes (http.StatusCode resp)); simpl; [|done].
  rewrite Hun.
  destruct (http.StatusCode resp =? v1.statusAPIError),
    (bool_decide (v1.Status env = "error")); simpl; congruence.
Qed.

Lemma v1_Do_mismatch_witness :
  v1.Do sample.unmarshal (sample.answering 200 sample.errorBody)
    None sample.request
  = Return (Some (sample.response 200 sample.errorBody)) EmptyString
      (Some (v1Error "bad_response" "inconsistent body for response code")).
Proof.
  apply (v1_Do_mismatch sample.unmarshal
           (sample.answering 200 sample.errorBody) None sample.request
           (sample.response 200 sample.errorBody) sample.errorBody
           sample.parseError);
    [reflexivity | reflexivity | done].
Defined.

(** C2: on status code 422 with an envelope whose status is "error",
    [apiClient.Do] returns an error whose kind is the envelope's
    errorType and whose message is the envelope's error. *)
Theorem v1_Do_api_error unmarshal c ctx req resp body env :
  prometheus.Client_Do c ctx req = Return (Some resp) body None ->
  http.StatusCode resp = 422 ->
  unmarshal body = inl env ->
  v1.Status env = "error" ->
  v1.Do unmarshal c ctx req =
    Return (Some resp) (v1.Data env)
      (Some (v1Error (v1.ErrorType_ env) (v1.Error env))).
Proof.
  intros Hdo Hcode Hun Hst. unfold v1.Do.
  rewrite Hdo, Hcode, Hun, Hst. reflexivity.
Qed.

Lemma v1_Do_api_error_witness :
  v1.Do sample.unmarshal (sample.answering 422 sample.errorBody)
    None sample.request
  = Return (Some (sample.response 422 sample.errorBody)) EmptyString
      (Some (v1Error "bad_data" "parse error")).
Proof.
  apply (v1_Do_api_error sample.unmarshal
           (sample.answering 422 sample.errorBody) None sample.request
           (sample.response 422 sample.errorBody) sample.errorBody
           sample.parseError);
    reflexivity.
Defined.

(** C3: on status code 200 with an envelope whose status is "success",
    [apiClient.Do] returns the envelope's data and no error. *)
Theorem v1_Do_success unmarshal c ctx req resp body env :
  prometheus.Client_Do c ctx req = Return (Some resp) body None ->
  http.StatusCode resp = 200 ->
  unmarshal body = inl env ->
  v1.Status env = "success" ->
  v1.Do unmarshal c ctx req = Return (Some resp) (v1.Data env) None.
Proof.
  intros Hdo Hcode Hun Hst. unfold v1.Do.
  rewrite Hdo, Hcode, Hun, Hst. reflexivity.
Qed.

Lemma v1_Do_success_witness :
  v1.Do sample.unmarshal (sample.answering 200 sample.successBody)
    None sample.request
  = Return (Some (sample.response 200 sample.successBody)) "[]" None.
Proof.
  apply (v1_Do_success sample.unmarshal
           (sample.answering 200 sample.successBody) None sample.request
           (sample.response 200 sample.successBody) sample.successBody
           sample.success);
    reflexivity.
Defined.

(* ===================================================================== *)
(** * The Alertmanager wrapper: status codes *)
(* ===================================================================== *)

(** C9, as stated, fails: the status code 204 is a 2xx code, and the
    wrapper turns it into an error. *)
Lemma alertmanager_Do_204 :
  Z.quot 204 100 = 2 ∧
  alertmanager.Do (sample.amAnswering 204 EmptyString) None sample.request
  = Return (Some (sample.response 204 EmptyString)) EmptyString
      (Some (clientError 204 EmptyString)).
Proof. split; reflexivity. Qed.

(** C9, amended: after a successful round trip the Alertmanager wrapper
    passes a response with status code 200 through without error, and
    turns every other status code, the other 2xx codes included, into an
    error carrying that status code. *)
Theorem alertmanager_Do_status c ctx req resp body :
  alertmanager.Client_Do c ctx (jsonRequest req)
    = Return (Some resp) body None ->
  (http.StatusCode resp = 200 ->
   alertmanager.Do c ctx req = Return (Some resp) body None) ∧
  (http.StatusCode resp ≠ 200 ->
   alertmanager.Do c ctx req =
     Return (Some resp) body
       (Some (clientError (http.StatusCode resp) EmptyString))).
Proof.
  intros Hdo. unfold alertmanager.Do. fold (jsonRequest req). rewrite Hdo.
  unfold http.StatusOK. split; intros Hcode.
  - by rewrite Hcode.
  - apply Z.eqb_neq in Hcode. by rewrite Hcode.
Qed.

Lemma alertmanager_Do_status_witness :
  alertmanager.Do (sample.amAnswering 200 "[]") None sample.request
  = Return (Some (sample.response 200 "[]")) "[]" None.
Proof.
  apply (alertmanager_Do_status (sample.amAnswering 200 "[]") None
           sample.request (sample.response 200 "[]") "[]");
    reflexivity.
Defined.

(* ===================================================================== *)
(** * Query results: the discriminator *)
(* ===================================================================== *)

Section QueryResult.

Variables Scalar Vector Matrix : Type.
Variable unmarshalTyped : string -> (v1.ValueType * string) + error.
Variable unmarshalScalar : string -> Scalar * option error.
Variable unmarshalVector : string -> Vector * option error.
Variable unmarshalMatrix : string -> Matrix * option error.

Local Abbreviation UnmarshalJSON :=
  (v1.UnmarshalJSON Scalar Vector Matrix unmarshalTyped
     unmarshalScalar unmarshalVector unmarshalMatrix).
Local Abbreviation queryResult := (v1.queryResult Scalar Vector Matrix).

(** C6: [queryResult.UnmarshalJSON] decodes the discriminator first: when
    that fails, nothing else is decoded and its error is returned.
    Otherwise it gives the raw result to the decoder of the shape named
    by the discriminator and to no other, and when the discriminator is
    none of scalar, vector and matrix it returns an error and leaves the
    receiver as it was. *)
Theorem UnmarshalJSON_dispatch (qr : queryResult) (b : string) :
  (∀ e, unmarshalTyped b = inr e -> UnmarshalJSON qr b = (qr, Some e)) ∧
  (∀ raw, unmarshalTyped b = inl (v1.ValScalar, raw) ->
     UnmarshalJSON qr b =
       ({| v1.Type_ := v1.Type_ _ _ _ qr;
           v1.v := Some (v1.ScalarValue _ _ _ (unmarshalScalar raw).1) |},
        (unmarshalScalar raw).2)) ∧
  (∀ raw, unmarshalTyped b = inl (v1.ValVector, raw) ->
     UnmarshalJSON qr b =
       ({| v1.Type_ := v1.Type_ _ _ _ qr;
           v1.v := Some (v1.VectorValue _ _ _ (unmarshalVector raw).1) |},
        (unmarshalVector raw).2)) ∧
  (∀ raw, unmarshalTyped b = inl (v1.ValMatrix, raw) ->
     UnmarshalJSON qr b =
       ({| v1.Type_ := v1.Type_ _ _ _ qr;
           v1.v := Some (v1.MatrixValue _ _ _ (unmarshalMatrix raw).1) |},
        (unmarshalMatrix raw).2)) ∧
  ((∀ raw, unmarshalTyped b ≠ inl (v1.ValScalar, raw)) ->
   (∀ raw, unmarshalTyped b ≠ inl (v1.ValVector, raw)) ->
   (∀ raw, unmarshalTyped b ≠ inl (v1.ValMatrix, raw)) ->
   ∃ e, UnmarshalJSON qr b = (qr, Some e)).
Proof.
  unfold v1.UnmarshalJSON.
  repeat split; try (intros ? ->; reflexivity).
  intros Hs Hv Hm.
  destruct (unmarshalTyped b) as [[t raw]|e] eqn:Hb; [|by eexists].
  destruct t; try (by eexists).
  - by destruct (Hs raw).
  - by destruct (Hv raw).
  - by destruct (Hm raw).
Qed.

End QueryResult.

Lemma UnmarshalJSON_dispatch_witness :
  v1.UnmarshalJSON Z (list Z) (list (list Z)) sample.typed sample.scalar
    sample.vector sample.matrix sample.emptyResult "vector:[]"
  = ({| v1.Type_ := v1.ValNone; v1.v := Some (v1.VectorValue _ _ _ []) |},
     None) ∧
  ∃ e, v1.UnmarshalJSON Z (list Z) (list (list Z)) sample.typed sample.scalar
         sample.vector sample.matrix sample.emptyResult "unknown:x"
       = (sample.emptyResult, Some e).
Proof.
  split.
  - apply (proj1 (proj2 (proj2
      (UnmarshalJSON_dispatch Z (list Z) (list (list Z)) sample.typed
         sample.scalar sample.vector sample.matrix sample.emptyResult
         "vector:[]"))) "[]").
    reflexivity.
  - apply (proj2 (proj2 (proj2 (proj2
      (UnmarshalJSON_dispatch Z (list Z) (list (list Z)) sample.typed
         sample.scalar sample.vector sample.matrix sample.emptyResult
         "unknown:x"))))); intros raw; vm_compute; discriminate.
Defined.

(* ===================================================================== *)
(** * Authentication *)
(* ===================================================================== *)

Lemma Do_sent c sched ctx req :
  prometheus.sent (prometheus.Do c sched ctx req)
  = prometheus.authenticate c ctx req.
Proof.
  unfold prometheus.Do.
  destruct (http.Client_Do _ _) as [[resp|] [e|]]; try reflexivity.
  by destruct ctx.
Qed.

Lemma authenticate_username c ctx req :
  prometheus.username c ≠ EmptyString ->
  http.ReqHeader (prometheus.authenticate c ctx req)
  = <["Authorization" := [basic c]]> (http.ReqHeader req).
Proof.
  intros Hu. unfold prometheus.authenticate.
  rewrite bool_decide_eq_false_2 by done. simpl.
  by destruct ctx.
Qed.

Lemma authenticate_token c ctx req :
  prometheus.username c = EmptyString ->
  prometheus.bearerToken c ≠ EmptyString ->
  http.ReqHeader (prometheus.authenticate c ctx req)
  = <["Authorization" :=
        default [] (http.ReqHeader req !! "Authorization") ++ [bearer c]]>
      (http.ReqHeader req).
Proof.
  intros Hu Ht. unfold prometheus.authenticate.
  rewrite bool_decide_eq_true_2 by done.
  rewrite bool_decide_eq_false_2 by done. simpl.
  by destruct ctx.
Qed.

Lemma basic_not_bearer c : basic c ≠ bearer c.
Proof. unfold basic, bearer. simpl. intros H. discriminate H. Qed.

(** C4: with a user name and a bearer token both configured (whatever
    the password), the request [Do] gives to the transport has its
    [Authorization] header set to the single value of basic
    authentication; the bearer value is not among its values. *)
Theorem Do_basic_over_bearer c sched ctx req :
  prometheus.username c ≠ EmptyString ->
  prometheus.bearerToken c ≠ EmptyString ->
  let h := http.ReqHeader (prometheus.sent (prometheus.Do c sched ctx req)) in
  h = <["Authorization" := [basic c]]> (http.ReqHeader req) ∧
  h !! "Authorization" = Some [basic c] ∧
  ∀ vs, h !! "Authorization" = Some vs -> bearer c ∉ vs.
Proof.
  intros Hu Ht h. subst h. rewrite Do_sent, authenticate_username by done.
  rewrite lookup_insert_eq. split; [done|]. split; [done|].
  intros vs [= <-]. rewrite list_elem_of_singleton.
  intros H. by apply (basic_not_bearer c).
Qed.

Lemma Do_basic_over_bearer_witness :
  http.ReqHeader
    (prometheus.sent
       (prometheus.Do (sample.client "Aladdin" "open sesame" "t0k3n" 200 "{}")
          [] None sample.request))
    !! "Authorization"
  = Some ["Basic QWxhZGRpbjpvcGVuIHNlc2FtZQ=="].
Proof.
  apply (Do_basic_over_bearer
           (sample.client "Aladdin" "open sesame" "t0k3n" 200 "{}")
           [] None sample.request); done.
Defined.

(** What [Proxy] does with a method it knows. *)
Lemma Proxy_sends urlString send c method u params data :
  method ∈ ["GET"; "POST"; "PUT"; "DELETE"] ->
  prometheus.Proxy urlString send c method u params data
  = send method (urlString (prometheus.endpoint c) +:+ u)
      (prometheus.requestOptions c params data).
Proof.
  intros Hm. unfold prometheus.Proxy.
  repeat (apply elem_of_cons in Hm as [->|Hm]; [reflexivity|]).
  by apply elem_of_nil in Hm.
Qed.

(** C10: [Do] attaches basic authentication as soon as the user name is
    not empty, [Proxy] only when user name and password are both not
    empty.  So with a user name, an empty password and a bearer token,
    [Do] sends the basic value in [Authorization] and [Proxy] gives
    [grequests] no basic credentials and the bearer value in
    [Authorization]. *)
Theorem Do_Proxy_auth_differ c :
  (prometheus.username c ≠ EmptyString ->
   ∀ sched ctx req,
     http.ReqHeader (prometheus.sent (prometheus.Do c sched ctx req))
       !! "Authorization" = Some [basic c]) ∧
  (∀ params data,
     grequests.Auth (prometheus.requestOptions c params data) ≠ [] ↔
     prometheus.username c ≠ EmptyString ∧
     prometheus.password c ≠ EmptyString) ∧
  (prometheus.username c ≠ EmptyString ->
   prometheus.password c ≠ EmptyString ->
   ∀ params data,
     grequests.Auth (prometheus.requestOptions c params data)
       = [prometheus.username c; prometheus.password c] ∧
     grequests.Headers (prometheus.requestOptions c params data) = ∅) ∧
  (prometheus.username c ≠ EmptyString ->
   prometheus.password c = EmptyString ->
   prometheus.bearerToken c ≠ EmptyString ->
   ∀ urlString send method u params data,
     method ∈ ["GET"; "POST"; "PUT"; "DELETE"] ->
     ∃ ro,
       prometheus.Proxy urlString send c method u params data
         = send method (urlString (prometheus.endpoint c) +:+ u) ro ∧
       grequests.Auth ro = [] ∧
       grequests.Headers ro = {[ "Authorization" := bearer c ]}).
Proof.
  split; [|split; [|split]].
  - intros Hu sched ctx req.
    by rewrite Do_sent, authenticate_username, lookup_insert_eq.
  - intros params data. unfold prometheus.requestOptions; simpl.
    do 2 case_bool_decide; simpl; intuition congruence.
  - intros Hu Hp params data. unfold prometheus.requestOptions; simpl.
    by rewrite !bool_decide_eq_false_2 by done.
  - intros Hu Hp Ht urlString send method u params data Hm.
    eexists. split; [by apply Proxy_sends|].
    unfold prometheus.requestOptions; simpl.
    rewrite (bool_decide_eq_true_2 _ Hp).
    rewrite (bool_decide_eq_false_2 _ Ht).
    by rewrite andb_false_r.
Qed.

Lemma Do_Proxy_auth_differ_witness :
  let c := sample.client "Aladdin" EmptyString "t0k3n" 200 "{}" in
  http.ReqHeader (prometheus.sent (prometheus.Do c [] None sample.request))
    !! "Authorization" = Some ["Basic QWxhZGRpbjo="] ∧
  ∃ ro,
    prometheus.Proxy (fun _ => "http://prom:9090") (fun _ _ _ => (None, None))
      c "GET" "/api/v1/labels" ∅ ∅ = (None, None) ∧
    grequests.Auth ro = [] ∧
    grequests.Headers ro = {[ "Authorization" := "Bearer t0k3n" ]}.
Proof.
  intros c. split.
  - apply (proj1 (Do_Proxy_auth_differ c)). done.
  - apply (proj2 (proj2 (proj2 (Do_Proxy_auth_differ c))));
      [done | done | done |].
    apply list_elem_of_here.
Defined.

(* ===================================================================== *)
(** * [Do]: the body is closed, and which error comes back *)
(* ===================================================================== *)

Lemma closes_snoc evs ev :
  prometheus.closes (evs ++ [ev])
  = (prometheus.closes evs
     + match ev with prometheus.EvClose => 1 | _ => 0 end)%nat.
Proof.
  induction evs as [|ev' evs IH]; simpl; [by destruct ev|].
  destruct ev'; simpl; by rewrite IH.
Qed.

Lemma closes_elem evs :
  prometheus.closes evs ≠ 0%nat -> prometheus.EvClose ∈ evs.
Proof.
  induction evs as [|ev evs IH]; simpl; [done|].
  destruct ev; intros H; try (right; by apply IH). left.
Qed.

Lemma lastStore_snoc evs ev :
  lastStore (evs ++ [ev])
  = match ev with
    | prometheus.EvStore _ e => e
    | _ => lastStore evs
    end.
Proof. unfold lastStore. by rewrite fold_left_app. Qed.

Lemma elem_of_snoc {A} (x y : A) (l : list A) :
  x ∈ l ++ [y] ↔ x ∈ l ∨ x = y.
Proof. by rewrite elem_of_app, list_elem_of_singleton. Qed.

Lemma viaCtx_snoc evs ev : viaCtx evs -> viaCtx (evs ++ [ev]).
Proof. unfold viaCtx. rewrite elem_of_snoc. tauto. Qed.

Lemma viaCtx_here evs : viaCtx (evs ++ [prometheus.EvSelect true]).
Proof. unfold viaCtx. rewrite elem_of_snoc. tauto. Qed.

Lemma not_viaCtx_snoc evs ev :
  ¬ viaCtx evs -> ev ≠ prometheus.EvSelect true -> ¬ viaCtx (evs ++ [ev]).
Proof.
  unfold viaCtx. rewrite elem_of_snoc. intros H1 H2 [H|H]; [tauto|].
  by apply H2.
Qed.

Lemma drainStored_snoc evs ev : drainStored evs -> drainStored (evs ++ [ev]).
Proof. intros [rd H]. exists rd. rewrite elem_of_snoc. tauto. Qed.

Lemma drainStored_here evs rd :
  drainStored (evs ++ [prometheus.EvStore true rd]).
Proof. exists rd. rewrite elem_of_snoc. tauto. Qed.

Lemma closeStored_snoc evs ev : closeStored evs -> closeStored (evs ++ [ev]).
Proof. intros [cl H]. exists cl. rewrite elem_of_snoc. tauto. Qed.

Lemma closeStored_here evs cl :
  closeStored (evs ++ [prometheus.EvStore false cl]).
Proof. exists cl. rewrite elem_of_snoc. tauto. Qed.

Create HintDb history.
#[local] Hint Resolve viaCtx_snoc viaCtx_here not_viaCtx_snoc
  drainStored_snoc drainStored_here closeStored_snoc closeStored_here
  : history.

Lemma inv_start ctx : inv ctx prometheus.start.
Proof.
  unfold inv, viaCtx; simpl. split; [done|]. split; [done|].
  split; [done|]. split; [|done]. by intros ?%elem_of_nil.
Qed.

Ltac history :=
  simpl in *; rewrite ?closes_snoc, ?lastStore_snoc; simpl;
  repeat match goal with
         | H : _ ∧ _ |- _ => destruct H
         | H : _ ∨ _ |- _ => destruct H
         end;
  try match goal with
      | H : _ = lastStore ?l |- context [lastStore ?l] =>
          rewrite <- H; simpl
      end;
  repeat match goal with
         | |- _ ∧ _ => split
         | |- _ -> _ => intro
         end;
  try discriminate;
  first [ congruence | lia | by eauto with history
        | left; repeat split; first [congruence | lia | by eauto with history]
        | right; repeat split;
            first [congruence | lia | by eauto with history] ].

Lemma inv_step resp ctx s a :
  inv ctx s -> inv ctx (prometheus.step resp ctx s a).
Proof.
  destruct s as [m d b e dn cd evs]. unfold inv. simpl.
  intros (Hdone & Hread & Hm).
  destruct a as [prefer| |]; simpl.
  - (* the caller *)
    unfold prometheus.stepMain; simpl.
    destruct m; simpl.
    + destruct cd, prefer, dn; history.
    + history.
    + history.
    + destruct dn; history.
    + destruct e; history.
    + history.
    + history.
  - (* the drain *)
    unfold prometheus.stepDrain; simpl.
    destruct d; simpl.
    + destruct dn; [by specialize (Hdone eq_refl)|].
      destruct m; history.
    + destruct dn; [by specialize (Hdone eq_refl)|].
      destruct m; history.
    + destruct m; history.
  - (* the context is cancelled *)
    done.
Qed.

Lemma inv_exec resp ctx sched : inv ctx (prometheus.exec resp ctx sched).
Proof.
  unfold prometheus.exec. generalize (inv_start ctx).
  generalize prometheus.start.
  induction sched as [|a sched IH]; intros s Hs; simpl; [done|].
  apply IH. by apply inv_step.
Qed.

(** C7, as stated, fails: when [select] takes the case of the
    cancellation, [Close] is called on the body to stop the read and once
    more by the deferred function before [Do] returns. *)
Lemma Do_cancelled_closes_twice :
  let r := prometheus.Do (sample.client EmptyString EmptyString EmptyString
                            200 "{}")
             sample.cancelThenDrain (Some sample.canceled) sample.request in
  prometheus.result r
  = Return (Some (sample.response 200 "{}")) EmptyString
      (Some (errorString "http: read on closed response body")) ∧
  prometheus.history r
  = [prometheus.EvSelect true; prometheus.EvClose;
     prometheus.EvStore false None;
     prometheus.EvStore true
       (Some (errorString "http: read on closed response body"));
     prometheus.EvClose] ∧
  prometheus.closes (prometheus.history r) = 2%nat.
Proof. repeat split. Qed.

(** C7, amended: on every path of [Do] on which the transport gave a
    response and [Do] ended, [Close] was called on the body of the
    response at least once and at most twice: exactly once when [select]
    took the case of the drain (and when the transport gave an error with
    the response, or the context is nil), and exactly twice when [select]
    took the case of the cancellation. *)
Theorem Do_closes c sched ctx req resp err :
  http.Client_Do (prometheus.client c) (prometheus.authenticate c ctx req)
    = (Some resp, err) ->
  let r := prometheus.Do c sched ctx req in
  prometheus.result r ≠ Pending ->
  (prometheus.closes (prometheus.history r) = 1%nat ∧
   ¬ viaCtx (prometheus.history r)) ∨
  (prometheus.closes (prometheus.history r) = 2%nat ∧
   viaCtx (prometheus.history r)).
Proof.
  intros Hrt r. subst r. unfold prometheus.Do. rewrite Hrt.
  assert (Hone : ¬ viaCtx [prometheus.EvClose]).
  { unfold viaCtx. by rewrite list_elem_of_singleton. }
  destruct err as [e|]; simpl; [by left|].
  destruct ctx as [cx|]; simpl; [|by left].
  pose proof (inv_exec resp cx sched) as (_ & _ & Hm).
  destruct (prometheus.main (prometheus.exec resp cx sched)); try done.
  intros _. destruct Hm as [_ [(? & ? & _)|[? ?]]]; [by right|by left].
Qed.

Lemma Do_closes_witness :
  let r := prometheus.Do (sample.client EmptyString EmptyString EmptyString
                            200 "{}")
             sample.drainOnly (Some sample.canceled) sample.request in
  (prometheus.closes (prometheus.history r) = 1%nat ∧
   ¬ viaCtx (prometheus.history r)) ∨
  (prometheus.closes (prometheus.history r) = 2%nat ∧
   viaCtx (prometheus.history r)).
Proof.
  apply (Do_closes (sample.client EmptyString EmptyString EmptyString
                      200 "{}")
           sample.drainOnly (Some sample.canceled) sample.request
           (sample.response 200 "{}") None); [reflexivity|].
  vm_compute. discriminate.
Defined.

(** Both ways out of the [select] are taken by some schedule, and [Do]
    returns on each. *)
Lemma Do_returns c cx req resp :
  http.Client_Do (prometheus.client c)
    (prometheus.authenticate c (Some cx) req) = (Some resp, None) ->
  prometheus.result (prometheus.Do c sample.drainOnly (Some cx) req)
  = Return (Some resp) (http.ReadAll (http.Body resp) 0).1
      (http.ReadAll (http.Body resp) 0).2 ∧
  prometheus.result (prometheus.Do c sample.cancelThenDrain (Some cx) req)
  = Return (Some resp) (http.ReadAll (http.Body resp) 1).1
      (Some (default (http.ctxErr cx) (http.ReadAll (http.Body resp) 1).2)).
Proof.
  intros Hrt. unfold prometheus.Do. rewrite Hrt. simpl. split; [done|].
  by destruct (http.ReadAll (http.Body resp) 1).2.
Qed.

(** C8 does not hold of the code.  The drain (line 302) and the caller
    (line 308) both assign [err], and nothing orders the two assignments.
    In the call below the context is cancelled while the drain reads and
    the caller takes the case of the cancellation; the read breaks off
    with an error of the network, which the drain assigns to [err]; the
    caller then closes the body and assigns the nil result of [Close]
    over it.  [Do] returns the error of the cancellation, and the error
    of the drain is lost. *)
Lemma Do_cancelled_drops_drain_error :
  let r := prometheus.Do sample.brokenClient sample.cancelDrainClose
             (Some sample.canceled) sample.request in
  prometheus.history r
  = [prometheus.EvSelect true;
     prometheus.EvStore true (Some (errorString "unexpected EOF"));
     prometheus.EvClose; prometheus.EvStore false None;
     prometheus.EvClose] ∧
  prometheus.result r
  = Return (Some {| http.StatusCode := 200; http.Body := sample.broken |})
      "par" (Some (http.ctxErr sample.canceled)) ∧
  errorString "unexpected EOF" ≠ http.ctxErr sample.canceled.
Proof. repeat split. done. Qed.

(** The same call with the other order of the two assignments: the drain
    ends its read after the caller has assigned the result of [Close].
    The test of line 310 then finds the error of the drain in [err] and
    keeps it. *)
Lemma Do_cancelled_keeps_drain_error :
  let r := prometheus.Do sample.brokenClient sample.cancelThenDrain
             (Some sample.canceled) sample.request in
  prometheus.history r
  = [prometheus.EvSelect true; prometheus.EvClose;
     prometheus.EvStore false None;
     prometheus.EvStore true (Some (errorString "unexpected EOF"));
     prometheus.EvClose] ∧
  prometheus.result r
  = Return (Some {| http.StatusCode := 200; http.Body := sample.broken |})
      "par" (Some (errorString "unexpected EOF")).
Proof. by split. Qed.

(* ===================================================================== *)
(** * [URL]: the placeholders *)
(* ===================================================================== *)

(** ** Strings *)

Lemma append_nil (b : string) : EmptyString +:+ b = b.
Proof. reflexivity. Qed.

Lemma append_cons c (a b : string) : String c a +:+ b = String c (a +:+ b).
Proof. reflexivity. Qed.

Lemma length_drop k s :
  (String.length (strings.drop k s) <= String.length s)%nat.
Proof.
  revert s; induction k as [|k IH]; intros [|c s]; simpl; try lia.
  specialize (IH s). lia.
Qed.

Lemma HasPrefix_nil s : strings.HasPrefix s EmptyString = true.
Proof. by destruct s. Qed.

Lemma HasPrefix_app a r : strings.HasPrefix (a +:+ r) a = true.
Proof.
  induction a as [|c a IH]; [apply HasPrefix_nil|].
  rewrite append_cons. simpl. by rewrite decide_True.
Qed.

Lemma HasPrefix_split s a :
  strings.HasPrefix s a = true -> s = a +:+ strings.drop (String.length a) s.
Proof.
  revert s; induction a as [|c a IH]; intros s.
  - by destruct s.
  - destruct s as [|d s]; simpl; [done|].
    destruct (decide (c = d)) as [->|]; [|done].
    intros Hp. rewrite append_cons. f_equal. by apply IH.
Qed.

Lemma drop_app a r : strings.drop (String.length a) (a +:+ r) = r.
Proof.
  induction a as [|c a IH]; [by destruct r|].
  by rewrite append_cons.
Qed.

Lemma HasPrefix_comparable s a b :
  strings.HasPrefix s a = true -> strings.HasPrefix s b = true ->
  strings.HasPrefix a b = true ∨ strings.HasPrefix b a = true.
Proof.
  revert a b; induction s as [|c s IH]; intros [|x a] [|y b]; simpl;
    try (by auto).
  destruct (decide (x = c)) as [->|]; [|done].
  destruct (decide (y = c)) as [->|]; [|done].
  intros Ha Hb. rewrite decide_True by done. by apply IH.
Qed.

Lemma colonFree_app a b :
  colonFree (a +:+ b) = colonFree a && colonFree b.
Proof.
  unfold colonFree. induction a as [|c a IH]; [done|].
  rewrite append_cons. simpl. by case_decide.
Qed.

Lemma colonFree_cons c s :
  colonFree (String c s) = true -> c ≠ ":"%char ∧ colonFree s = true.
Proof.
  unfold colonFree; simpl.
  destruct (decide (":"%char = c)) as [<-|]; [done|]. by split.
Qed.

(** ** [strings.Replace] with a placeholder *)

Lemma replaceLoop_fuel old new n m s :
  old ≠ EmptyString ->
  (String.length s < n)%nat -> (String.length s < m)%nat ->
  strings.replaceLoop n old new s = strings.replaceLoop m old new s.
Proof.
  intros Hold. revert m s; induction n as [|n IH]; intros m s Hn Hm; [lia|].
  destruct m as [|m]; [lia|]. simpl.
  destruct (strings.HasPrefix s old) eqn:Hp.
  - f_equal. destruct s as [|c s].
    { destruct old; [done|]. simpl in Hp. done. }
    destruct old as [|o old]; [done|]. simpl.
    pose proof (length_drop (String.length old) s). simpl in *.
    apply IH; lia.
  - destruct s as [|c s]; [done|]. f_equal. simpl in *. apply IH; lia.
Qed.

Lemma replaceLoop_S n old new s :
  strings.replaceLoop (S n) old new s
  = if strings.HasPrefix s old
    then new +:+ strings.replaceLoop n old new
                   (strings.drop (String.length old) s)
    else match s with
         | EmptyString => EmptyString
         | String c s' => String c (strings.replaceLoop n old new s')
         end.
Proof. reflexivity. Qed.

Lemma HasPrefix_cons c p d s :
  strings.HasPrefix (String d s) (String c p)
  = if decide (c = d) then strings.HasPrefix s p else false.
Proof. reflexivity. Qed.

Lemma fill_unfold a v p :
  fill a v p
  = strings.replaceLoop (S (String.length p)) (String ":" a) v p.
Proof. reflexivity. Qed.

Lemma fill_nil a v : fill a v EmptyString = EmptyString.
Proof. reflexivity. Qed.

Lemma fill_other a v c s :
  c ≠ ":"%char -> fill a v (String c s) = String c (fill a v s).
Proof.
  intros Hc. rewrite !fill_unfold, replaceLoop_S, HasPrefix_cons.
  by rewrite decide_False by congruence.
Qed.

Lemma fill_hit a v r :
  strings.HasPrefix r a = true ->
  fill a v (String ":" r)
  = v +:+ fill a v (strings.drop (String.length a) r).
Proof.
  intros Hp. rewrite !fill_unfold, replaceLoop_S, HasPrefix_cons.
  rewrite decide_True by done. rewrite Hp. f_equal.
  pose proof (length_drop (String.length a) r).
  cbn [String.length strings.drop].
  apply replaceLoop_fuel; [done|lia|lia].
Qed.

Lemma fill_miss a v r :
  strings.HasPrefix r a = false ->
  fill a v (String ":" r) = String ":" (fill a v r).
Proof.
  intros Hp. rewrite !fill_unfold, replaceLoop_S, HasPrefix_cons.
  rewrite decide_True by done. by rewrite Hp.
Qed.

Lemma fill_plain a v s r :
  colonFree s = true -> fill a v (s +:+ r) = s +:+ fill a v r.
Proof.
  induction s as [|c s IH]; [done|].
  intros [Hc Hs]%colonFree_cons.
  rewrite append_cons, fill_other by done. by rewrite IH.
Qed.

Lemma substitute_fill p kv :
  prometheus.substitute p kv = fill kv.1 kv.2 p.
Proof. reflexivity. Qed.

(** ** Colons that start a placeholder *)

Lemma covered_other N c r :
  c ≠ ":"%char -> covered N (String c r) = covered N r.
Proof. intros Hc. cbn [covered]. by rewrite decide_False. Qed.

Lemma covered_colon N r :
  covered N (String ":" r)
  = existsb (strings.HasPrefix r) N && covered N r.
Proof. reflexivity. Qed.

Lemma covered_plain_app N v x :
  colonFree v = true -> covered N (v +:+ x) = covered N x.
Proof.
  induction v as [|c v IH]; [done|].
  intros [Hc Hv]%colonFree_cons.
  rewrite append_cons, covered_other by done. by apply IH.
Qed.

Lemma covered_drop N k p :
  covered N p = true -> covered N (strings.drop k p) = true.
Proof.
  revert p; induction k as [|k IH]; intros [|c p]; try done.
  cbn [covered strings.drop]. intros [_ Hp]%andb_true_iff. by apply IH.
Qed.

Lemma covered_nil p : covered [] p = true -> colonFree p = true.
Proof.
  unfold colonFree. induction p as [|c p IH]; [done|].
  cbn [covered strings.ContainsByte].
  destruct (decide (c = ":"%char)) as [->|Hc]; [done|].
  rewrite decide_False by congruence. done.
Qed.

Lemma plain_Contains p a :
  colonFree p = true -> strings.Contains p (":" +:+ a) = false.
Proof.
  rewrite append_cons, append_nil.
  induction p as [|c p IH]; [done|].
  intros [Hc Hp]%colonFree_cons.
  cbn [strings.Contains]. rewrite HasPrefix_cons.
  rewrite decide_False by congruence. by apply IH.
Qed.

Lemma covered_fill N N' a v :
  colonFree v = true ->
  (∀ b, In b N -> colonFree b = true) ->
  (∀ b, In b N -> b = a ∨ In b N') ->
  ∀ p, covered N p = true -> covered N' (fill a v p) = true.
Proof.
  intros Hv HN Hsub p.
  remember (S (String.length p)) as n eqn:Hn.
  assert (Hlt : (String.length p < n)%nat) by lia. clear Hn.
  revert p Hlt. induction n as [|n IH]; intros p Hlt; [lia|].
  destruct p as [|c r]; [done|]. simpl in Hlt.
  destruct (decide (c = ":"%char)) as [->|Hc].
  - rewrite covered_colon. intros [Hex Hr]%andb_true_iff.
    destruct (strings.HasPrefix r a) eqn:Hp.
    + rewrite fill_hit, covered_plain_app by done.
      pose proof (length_drop (String.length a) r).
      apply IH; [lia|]. by apply covered_drop.
    + rewrite fill_miss, covered_colon by done.
      apply andb_true_iff. split; [|apply IH; [lia|done]].
      apply existsb_exists in Hex as (b & Hb & Hpb).
      apply existsb_exists. exists b. split.
      * destruct (Hsub b Hb) as [->|]; [congruence|done].
      * rewrite (HasPrefix_split r b Hpb), fill_plain by auto.
        apply HasPrefix_app.
  - rewrite covered_other, fill_other, covered_other by done.
    intros Hr. apply IH; [lia|done].
Qed.

Lemma plain_cons a v l :
  plain ((a, v) :: l) = true ->
  colonFree a = true ∧ colonFree v = true ∧ plain l = true.
Proof.
  unfold plain; simpl. rewrite !andb_true_iff. tauto.
Qed.

Lemma plain_names l b :
  plain l = true -> In b l.*1 -> colonFree b = true.
Proof.
  induction l as [|[a v] l IH]; simpl; [done|].
  intros (Ha & Hv & Hl)%plain_cons [<-|Hb]; [done|]. by apply IH.
Qed.

(** After the loop of [URL] no colon is left. *)
Lemma fold_substitute_plain l :
  plain l = true ->
  ∀ p, covered l.*1 p = true ->
       colonFree (fold_left prometheus.substitute l p) = true.
Proof.
  induction l as [|[a v] l IH]; intros Hl p Hp; simpl.
  - by apply covered_nil.
  - pose proof Hl as (Ha & Hv & Hl')%plain_cons.
    apply IH; [done|]. rewrite substitute_fill. simpl.
    apply (covered_fill (a :: l.*1)); try done.
    + intros b Hb. by apply (plain_names ((a, v) :: l)).
    + intros b [<-|Hb]; [by left|by right].
Qed.

(** ** The order of the substitutions *)

Lemma prefixFree_spec N a b :
  prefixFree N = true -> In a N -> In b N ->
  strings.HasPrefix b a = true -> a = b.
Proof.
  unfold prefixFree. rewrite forallb_forall. intros H Ha Hb Hp.
  specialize (H a Ha). rewrite forallb_forall in H.
  specialize (H b Hb). rewrite Hp in H. simpl in H.
  by apply bool_decide_eq_true in H.
Qed.

Lemma prefix_clash N a b x :
  prefixFree N = true -> In a N -> In b N ->
  strings.HasPrefix x a = true -> strings.HasPrefix x b = true -> a = b.
Proof.
  intros HN Ha Hb Hxa Hxb.
  destruct (HasPrefix_comparable x a b Hxa Hxb) as [H|H].
  - symmetry. by apply (prefixFree_spec N b a).
  - by apply (prefixFree_spec N a b).
Qed.

Lemma fill_comm N a va b vb :
  prefixFree N = true ->
  (∀ n, In n N -> colonFree n = true) ->
  In a N -> In b N -> a ≠ b ->
  colonFree va = true -> colonFree vb = true ->
  ∀ p, covered N p = true ->
       fill b vb (fill a va p) = fill a va (fill b vb p).
Proof.
  intros HN Hplain Ha Hb Hab Hva Hvb p.
  remember (S (String.length p)) as n eqn:Hn.
  assert (Hlt : (String.length p < n)%nat) by lia. clear Hn.
  revert p Hlt. induction n as [|n IH]; intros p Hlt; [lia|].
  destruct p as [|c r]; [done|]. simpl in Hlt.
  destruct (decide (c = ":"%char)) as [->|Hc].
  - rewrite covered_colon. intros [Hex Hr]%andb_true_iff.
    apply existsb_exists in Hex as (m & Hm & Hpm).
    destruct (strings.HasPrefix r a) eqn:Hpa;
      destruct (strings.HasPrefix r b) eqn:Hpb.
    + destruct Hab. by apply (prefix_clash N a b r).
    + (* the placeholder of [a] *)
      pose proof (length_drop (String.length a) r).
      rewrite (fill_hit a), fill_plain, (fill_miss b) by done.
      rewrite (HasPrefix_split r a Hpa) at 2.
      rewrite (fill_plain b), (fill_hit a) by auto using HasPrefix_app.
      rewrite drop_app. f_equal.
      apply IH; [lia|]. by apply covered_drop.
    + (* the placeholder of [b] *)
      pose proof (length_drop (String.length b) r).
      rewrite (fill_hit b), fill_plain, (fill_miss a) by done.
      rewrite (HasPrefix_split r b Hpb) at 1.
      rewrite (fill_plain a), (fill_hit b) by auto using HasPrefix_app.
      rewrite drop_app. f_equal.
      apply IH; [lia|]. by apply covered_drop.
    + (* the placeholder of another name *)
      rewrite (fill_miss a va r), (fill_miss b vb r) by done.
      assert (Hfa : strings.HasPrefix (fill a va r) b = false).
      { rewrite (HasPrefix_split r m Hpm), fill_plain by auto.
        destruct (strings.HasPrefix (m +:+ _) b) eqn:Hq; [|done].
        assert (m = b) as ->.
        { apply (prefix_clash N m b _ HN Hm Hb (HasPrefix_app _ _) Hq). }
        congruence. }
      assert (Hfb : strings.HasPrefix (fill b vb r) a = false).
      { rewrite (HasPrefix_split r m Hpm), fill_plain by auto.
        destruct (strings.HasPrefix (m +:+ _) a) eqn:Hq; [|done].
        assert (m = a) as ->.
        { apply (prefix_clash N m a _ HN Hm Ha (HasPrefix_app _ _) Hq). }
        congruence. }
      rewrite (fill_miss b vb (fill a va r)) by done.
      rewrite (fill_miss a va (fill b vb r)) by done. f_equal.
      apply IH; [lia|done].
  - rewrite covered_other by done. intros Hr.
    rewrite !fill_other by done. f_equal. apply IH; [lia|done].
Qed.

Lemma fold_substitute_perm N l l' :
  prefixFree N = true ->
  (∀ n, In n N -> colonFree n = true) ->
  l ≡ₚ l' ->
  NoDup l.*1 ->
  (∀ kv, In kv l -> In kv.1 N ∧ colonFree kv.2 = true) ->
  ∀ p, covered N p = true ->
       fold_left prometheus.substitute l p
       = fold_left prometheus.substitute l' p.
Proof.
  intros HN Hplain Hperm.
  induction Hperm as [|x l l' Hperm IH|x y l|l l' l'' H1 IH1 H2 IH2];
    intros Hnd Hin p Hp.
  - done.
  - simpl. rewrite fmap_cons in Hnd. apply NoDup_cons in Hnd as [_ Hnd].
    apply IH; [done|by intros kv ?; apply Hin; right|].
    rewrite substitute_fill.
    destruct (Hin x) as [Hx Hv]; [by left|].
    apply (covered_fill N); auto.
  - simpl. f_equal. rewrite !substitute_fill.
    destruct (Hin x) as [Hx Hvx]; [by right; left|].
    destruct (Hin y) as [Hy Hvy]; [by left|].
    apply (fill_comm N); try done.
    rewrite !fmap_cons in Hnd. apply NoDup_cons in Hnd as [Hne _].
    intros Heq. apply Hne. rewrite Heq. left.
  - rewrite IH1 by done. apply IH2; [|  |done].
    + by rewrite <- H1.
    + intros kv Hkv. apply Hin.
      apply list_elem_of_In. rewrite H1. by apply list_elem_of_In.
Qed.

Lemma plain_In l kv :
  plain l = true -> In kv l ->
  colonFree kv.1 = true ∧ colonFree kv.2 = true.
Proof.
  unfold plain. rewrite forallb_forall. intros H Hkv.
  by apply andb_true_iff, H.
Qed.

(** C5, as stated, fails.  The template of the label values has one
    placeholder; with the value ":name" for it the path still holds the
    token.  And with two placeholders, the value ":b" for [a] and "x" for
    [b], the two orders of the argument map give two paths. *)
Lemma URL_token_in_value :
  let c := sample.client EmptyString EmptyString EmptyString 200 "{}" in
  prometheus.ranges {[ "name" := ":name" ]} [("name", ":name")] ∧
  strings.Contains
    (url.Path (prometheus.URL c v1.epLabelValues [("name", ":name")]))
    ":name" = true ∧
  url.Path (prometheus.URL c "/:a/:b" [("a", ":b"); ("b", "x")]) = "/x/x" ∧
  url.Path (prometheus.URL c "/:a/:b" [("b", "x"); ("a", ":b")]) = "/:b/x".
Proof.
  intros c. split; [|by repeat split].
  unfold prometheus.ranges. by rewrite map_to_list_singleton.
Qed.

(** C5, amended: let every colon of the joined template start the
    placeholder of a name of the argument map, and let no name and no
    value of the map hold a colon.  Then, whatever the order in which the
    map is ranged over, the path [URL] returns holds no colon, so none of
    the tokens; and when no name is the start of another name, the path
    is the same for every order. *)
Theorem URL_placeholders c ep m order :
  prometheus.ranges m order ->
  plain order = true ->
  covered order.*1 (path.Join (url.Path (prometheus.endpoint c)) ep) = true ->
  let u := prometheus.URL c ep order in
  colonFree (url.Path u) = true ∧
  (∀ a, a ∈ dom m -> strings.Contains (url.Path u) (":" +:+ a) = false) ∧
  (prefixFree order.*1 = true ->
   ∀ order', prometheus.ranges m order' -> prometheus.URL c ep order' = u).
Proof.
  intros Hr Hplain Hcov u. subst u. unfold prometheus.URL. simpl.
  assert (Hfree : colonFree
            (fold_left prometheus.substitute order
               (path.Join (url.Path (prometheus.endpoint c)) ep)) = true)
    by by apply fold_substitute_plain.
  split; [done|]. split; [by intros a _; apply plain_Contains|].
  intros Hpf order' Hr'. f_equal.
  unfold prometheus.ranges in *.
  assert (Hperm : order' ≡ₚ order) by by rewrite Hr, Hr'.
  apply (fold_substitute_perm order.*1); try done.
  - intros n Hn. by apply (plain_names order).
  - rewrite Hr'. apply NoDup_fst_map_to_list.
  - intros kv Hkv.
    assert (Hkv' : In kv order).
    { apply list_elem_of_In. rewrite <- Hperm. by apply list_elem_of_In. }
    split; [by apply in_map|]. by apply (plain_In order).
Qed.

Lemma URL_placeholders_witness :
  let c := sample.client EmptyString EmptyString EmptyString 200 "{}" in
  let order := [("job", "node"); ("instance", "a1")] in
  colonFree (url.Path (prometheus.URL c "/:job/:instance" order)) = true ∧
  prometheus.URL c "/:job/:instance" [("instance", "a1"); ("job", "node")]
  = prometheus.URL c "/:job/:instance" order.
Proof.
  intros c order.
  assert (Hnd : NoDup order.*1).
  { apply NoDup_cons. split; [|apply NoDup_singleton].
    rewrite list_elem_of_singleton. discriminate. }
  destruct (URL_placeholders c "/:job/:instance" (list_to_map order) order)
    as (H1 & _ & H3).
  - unfold prometheus.ranges. symmetry. by apply map_to_list_to_map.
  - reflexivity.
  - reflexivity.
  - split; [exact H1|]. apply H3; [reflexivity|].
    unfold prometheus.ranges. rewrite map_to_list_to_map by done.
    apply perm_swap.
Defined.


(* ===================================================================== *)
(** * [NewClient] *)
(* ===================================================================== *)

Lemma TrimRightSlash_cons c s :
  strings.TrimRightSlash (String c s)
  = match strings.TrimRightSlash s with
    | EmptyString => if decide (c = "/"%char) then EmptyString
                     else String c EmptyString
    | r => String c r
    end.
Proof. reflexivity. Qed.

Lemma TrimRightSlash_slashes s :
  ∃ k, s = strings.TrimRightSlash s +:+ slashes k.
Proof.
  induction s as [|c s [k IH]]; [by exists 0%nat|].
  rewrite TrimRightSlash_cons.
  destruct (strings.TrimRightSlash s) as [|d r] eqn:Ht.
  - rewrite append_nil in IH. subst s.
    destruct (decide (c = "/"%char)) as [->|Hc].
    + by exists (S k).
    + exists k. by rewrite append_cons, append_nil.
  - exists k. rewrite append_cons. by f_equal.
Qed.

Lemma TrimRightSlash_end s :
  endsWith (strings.TrimRightSlash s) "/" = false.
Proof.
  induction s as [|c s IH]; [done|].
  rewrite TrimRightSlash_cons.
  destruct (strings.TrimRightSlash s) as [|d r] eqn:Ht.
  - destruct (decide (c = "/"%char)) as [->|Hc]; [done|].
    by apply bool_decide_eq_false.
  - exact IH.
Qed.

(** X1: [NewClient] fails with the error of [url.Parse] and makes no
    client; otherwise the client keeps scheme, host and query of the
    address and the credentials of the configuration, its base path is
    the path of the address without its trailing slashes (it never ends
    in a slash), and it uses the round tripper of the configuration, or
    the default one when there is none. *)
Theorem NewClient_endpoint Parse DefaultRoundTripper cfg :
  match Parse (prometheus.Address cfg) with
  | inr err => prometheus.NewClient Parse DefaultRoundTripper cfg = inr err
  | inl u =>
      ∃ c, prometheus.NewClient Parse DefaultRoundTripper cfg = inl c ∧
           endsWith (url.Path (prometheus.endpoint c)) "/" = false ∧
           (∃ k, url.Path u = url.Path (prometheus.endpoint c) +:+ slashes k) ∧
           url.Scheme (prometheus.endpoint c) = url.Scheme u ∧
           url.Host (prometheus.endpoint c) = url.Host u ∧
           url.RawQuery (prometheus.endpoint c) = url.RawQuery u ∧
           prometheus.username c = prometheus.Username cfg ∧
           prometheus.password c = prometheus.Password cfg ∧
           prometheus.bearerToken c = prometheus.BearerToken cfg ∧
           prometheus.timeout c = prometheus.Timeout cfg ∧
           http.Transport (prometheus.client c)
           = default DefaultRoundTripper (prometheus.RoundTripper cfg)
  end.
Proof.
  unfold prometheus.NewClient.
  destruct (Parse (prometheus.Address cfg)) as [u|err]; [|done].
  eexists. split; [done|]. simpl.
  split; [apply TrimRightSlash_end|].
  split; [apply TrimRightSlash_slashes|].
  repeat split.
Qed.

(* ===================================================================== *)
(** * [URL]: arguments and the rest of the address *)
(* ===================================================================== *)

Lemma Contains_cons c r sub :
  strings.Contains (String c r) sub
  = strings.HasPrefix (String c r) sub || strings.Contains r sub.
Proof. reflexivity. Qed.

Lemma fill_absent a v p :
  strings.Contains p (":" +:+ a) = false -> fill a v p = p.
Proof.
  rewrite append_cons, append_nil.
  induction p as [|c r IH]; [done|].
  rewrite Contains_cons, HasPrefix_cons.
  intros [Hp Hr]%orb_false_iff.
  destruct (decide (c = ":"%char)) as [->|Hc].
  - rewrite decide_True in Hp by done.
    rewrite fill_miss by done. f_equal. by apply IH.
  - rewrite fill_other by done. f_equal. by apply IH.
Qed.

(** X2: arguments that name no placeholder of the joined template change
    nothing: [URL] returns the base address with the joined path.  This
    is so for a nil argument map, and scheme, host and query of the base
    address are kept in every case. *)
Theorem URL_without_placeholders c ep args :
  forallb (fun kv =>
    negb (strings.Contains
            (path.Join (url.Path (prometheus.endpoint c)) ep)
            (":" +:+ kv.1))) args = true ->
  prometheus.URL c ep args
  = url.setPath (prometheus.endpoint c)
      (path.Join (url.Path (prometheus.endpoint c)) ep).
Proof.
  unfold prometheus.URL. intros Hall. f_equal.
  induction args as [|kv args IH]; [done|].
  simpl in Hall. apply andb_true_iff in Hall as [Hkv Hall].
  simpl. rewrite substitute_fill, fill_absent; [by apply IH|].
  by apply negb_true_iff.
Qed.

Lemma URL_without_placeholders_witness :
  prometheus.URL
    (sample.client EmptyString EmptyString EmptyString 200 "{}")
    v1.epQuery [("id", "7")]
  = {| url.Scheme := "http"; url.Host := "prom:9090";
       url.Path := "/api/v1/query"; url.RawQuery := EmptyString |}.
Proof.
  apply (URL_without_placeholders
           (sample.client EmptyString EmptyString EmptyString 200 "{}")
           v1.epQuery [("id", "7")]).
  reflexivity.
Defined.

(** X3: when the joined template is [pre], the placeholder of [a] and
    [post], with no colon in [pre] and no further placeholder of [a] in
    [post], then one argument for [a] puts its value in the place of the
    placeholder, whatever the value is. *)
Theorem URL_one_placeholder c ep a v pre post :
  path.Join (url.Path (prometheus.endpoint c)) ep
    = pre +:+ ":" +:+ a +:+ post ->
  colonFree pre = true ->
  strings.Contains post (":" +:+ a) = false ->
  url.Path (prometheus.URL c ep [(a, v)]) = pre +:+ v +:+ post.
Proof.
  intros Hjoin Hpre Hpost. unfold prometheus.URL. simpl.
  rewrite Hjoin, substitute_fill. simpl.
  rewrite fill_plain by done. f_equal.
  rewrite append_cons, append_nil.
  rewrite fill_hit by apply HasPrefix_app.
  by rewrite drop_app, fill_absent.
Qed.

Lemma URL_one_placeholder_witness :
  url.Path
    (prometheus.URL
       (sample.client EmptyString EmptyString EmptyString 200 "{}")
       v1.epLabelValues [("name", "a:name")])
  = "/api/v1/label/a:name/values".
Proof.
  apply (URL_one_placeholder
           (sample.client EmptyString EmptyString EmptyString 200 "{}")
           v1.epLabelValues "name" "a:name" "/api/v1/label/" "/values");
    reflexivity.
Defined.

(* ===================================================================== *)
(** * [Do]: what is sent *)
(* ===================================================================== *)

(** X4: [Do] changes nothing of the request but its context and its
    [Authorization] header: method, address, body and every other header
    go to the transport as they came, and the context is the one of the
    call unless that is nil. *)
Theorem Do_request_kept c sched ctx req :
  let r := prometheus.sent (prometheus.Do c sched ctx req) in
  http.Method r = http.Method req ∧
  http.URL r = http.URL req ∧
  http.ReqBody r = http.ReqBody req ∧
  http.ReqContext r = match ctx with
                      | Some cx => Some cx
                      | None => http.ReqContext req
                      end ∧
  ∀ key, key ≠ "Authorization" ->
         http.ReqHeader r !! key = http.ReqHeader req !! key.
Proof.
  intros r. subst r. rewrite Do_sent. unfold prometheus.authenticate.
  destruct ctx as [cx|]; repeat case_bool_decide; simpl;
    repeat split; try done; intros key Hkey;
    unfold http.Header_Set, http.Header_Add;
    by rewrite lookup_insert_ne.
Qed.

(** X5: without a user name, a bearer token is added after the values
    the request already has in [Authorization], which are kept; and
    without user name and token the headers are not touched at all. *)
Theorem Do_bearer_added c sched ctx req :
  prometheus.username c = EmptyString ->
  let h := http.ReqHeader (prometheus.sent (prometheus.Do c sched ctx req)) in
  (prometheus.bearerToken c ≠ EmptyString ->
   h !! "Authorization"
   = Some (default [] (http.ReqHeader req !! "Authorization")
           ++ [bearer c])) ∧
  (prometheus.bearerToken c = EmptyString -> h = http.ReqHeader req).
Proof.
  intros Hu h. subst h. rewrite Do_sent. split.
  - intros Ht. rewrite authenticate_token by done.
    by rewrite lookup_insert_eq.
  - intros Ht. unfold prometheus.authenticate.
    rewrite !bool_decide_eq_true_2 by done. simpl. by destruct ctx.
Qed.

Lemma Do_bearer_added_witness :
  http.ReqHeader
    (prometheus.sent
       (prometheus.Do (sample.client EmptyString "secret" "t0k3n" 200 "{}")
          [] None
          (http.setHeader sample.request
             {[ "Authorization" := ["Basic b2xk"] ]})))
    !! "Authorization"
  = Some ["Basic b2xk"; "Bearer t0k3n"].
Proof.
  rewrite (proj1 (Do_bearer_added
                    (sample.client EmptyString "secret" "t0k3n" 200 "{}")
                    [] None
                    (http.setHeader sample.request
                       {[ "Authorization" := ["Basic b2xk"] ]})
                    eq_refl)) by done.
  simpl. by rewrite lookup_singleton_eq.
Defined.

(* ===================================================================== *)
(** * [Do]: errors of the transport, a nil context, and the drain *)
(* ===================================================================== *)

(** X6: when the transport fails, [Do] returns its error as it is, with
    a nil response and a nil body, whatever the schedule and the
    context; nothing is read, and the body is closed, once, only when
    the transport gave a response together with the error. *)
Theorem Do_transport_error c sched ctx req resp e :
  http.Client_Do (prometheus.client c) (prometheus.authenticate c ctx req)
    = (resp, Some e) ->
  let r := prometheus.Do c sched ctx req in
  prometheus.result r = Return None EmptyString (Some e) ∧
  prometheus.history r = match resp with
                         | Some _ => [prometheus.EvClose]
                         | None => []
                         end.
Proof.
  intros Hrt r. subst r. unfold prometheus.Do. rewrite Hrt.
  by destruct resp.
Qed.

Lemma Do_transport_error_witness :
  let c := {| prometheus.endpoint := sample.base;
              prometheus.username := EmptyString;
              prometheus.password := EmptyString;
              prometheus.bearerToken := EmptyString;
              prometheus.timeout := 30;
              prometheus.client :=
                {| http.Transport := fun _ =>
                     (None, Some (errorString "connection refused")) |} |} in
  prometheus.result
    (prometheus.Do c sample.drainOnly (Some sample.canceled) sample.request)
  = Return None EmptyString (Some (errorString "connection refused")).
Proof.
  intros c.
  apply (Do_transport_error c sample.drainOnly (Some sample.canceled)
           sample.request None (errorString "connection refused")).
  reflexivity.
Defined.

(** X7: with a nil context [Do] returns only when the transport fails:
    after a successful round trip the [select] asks the nil context for
    its channel and the call panics, the deferred function closing the
    body once. *)
Theorem Do_nil_context c sched req resp :
  http.Client_Do (prometheus.client c) (prometheus.authenticate c None req)
    = (Some resp, None) ->
  let r := prometheus.Do c sched None req in
  prometheus.result r = Panic ∧
  prometheus.history r = [prometheus.EvClose].
Proof. intros Hrt r. subst r. unfold prometheus.Do. by rewrite Hrt. Qed.

Lemma Do_nil_context_witness :
  prometheus.result
    (prometheus.Do (sample.client EmptyString EmptyString EmptyString
                      200 "{}")
       sample.drainOnly None sample.request)
  = Panic.
Proof.
  apply (Do_nil_context
           (sample.client EmptyString EmptyString EmptyString 200 "{}")
           sample.drainOnly sample.request (sample.response 200 "{}")).
  reflexivity.
Defined.

Lemma viaCtx_snoc_iff evs ev :
  ev ≠ prometheus.EvSelect true -> viaCtx (evs ++ [ev]) ↔ viaCtx evs.
Proof.
  intros Hev. unfold viaCtx. rewrite elem_of_snoc. split; [|tauto].
  intros [H|H]; [done|]. by destruct Hev.
Qed.

Lemma drained_start resp : drained resp prometheus.start.
Proof.
  unfold drained; simpl. split; [done|]. split; [|done].
  intros _. unfold viaCtx. by intros ?%elem_of_nil.
Qed.

Lemma drained_step resp ctx s a :
  inv ctx s -> drained resp s -> drained resp (prometheus.step resp ctx s a).
Proof.
  destruct s as [m d b e dn cd evs]. unfold inv, drained. simpl.
  intros (Hdone & _ & Hm) (Hread & Hcd & Hfin).
  destruct a as [prefer| |]; simpl.
  - (* the caller *)
    unfold prometheus.stepMain; simpl.
    destruct m; simpl.
    + (* select *)
      destruct cd; simpl.
      * destruct (prefer || negb dn); simpl.
        { split; [|split; [done|done]].
          intros Hd. destruct (Hread Hd) as (k & Hk & Hb & _).
          exists k. split; [done|]. split; [done|].
          intros Hno. destruct Hno. apply viaCtx_here. }
        destruct dn; simpl; [|done].
        split; [|split; [done|done]].
        intros Hd. destruct (Hread Hd) as (k & Hk & Hb & He).
        exists k. split; [done|]. split; [done|].
        rewrite viaCtx_snoc_iff by done. exact He.
      * destruct dn; simpl; [|done].
        split; [|split; [|done]].
        { intros Hd. destruct (Hread Hd) as (k & Hk & Hb & He).
          exists k. split; [done|]. split; [done|].
          rewrite viaCtx_snoc_iff by done. exact He. }
        intros _. rewrite viaCtx_snoc_iff by done. by apply Hcd.
    + (* Close *)
      destruct Hm as (_ & Hvia & _).
      split; [|split; [|done]].
      { intros Hd. destruct (Hread Hd) as (k & Hk & Hb & _).
        exists k. split; [done|]. split; [done|].
        intros Hno. destruct Hno. by apply viaCtx_snoc. }
      intros Hc. destruct (Hcd Hc Hvia).
    + (* the assignment *)
      destruct Hm as (_ & Hvia & _).
      split; [|split; [|done]].
      { intros Hd. destruct (Hread Hd) as (k & Hk & Hb & _).
        exists k. split; [done|]. split; [done|].
        intros Hno. destruct Hno. by apply viaCtx_snoc. }
      intros Hc. destruct (Hcd Hc Hvia).
    + (* the wait *)
      by destruct dn.
    + (* the check *)
      destruct Hm as (_ & Hvia & _).
      split; [|split; [done|done]].
      intros Hd. destruct (Hread Hd) as (k & Hk & Hb & _).
      exists k. split; [done|]. split; [done|]. by intros Hno.
    + (* the return *)
      split; [|split].
      * intros Hd. destruct (Hread Hd) as (k & Hk & Hb & He).
        exists k. split; [done|]. split; [done|].
        rewrite viaCtx_snoc_iff by done. exact He.
      * intros Hc. rewrite viaCtx_snoc_iff by done. by apply Hcd.
      * done.
    + done.
  - (* the drain *)
    unfold prometheus.stepDrain; simpl.
    destruct d; simpl.
    + (* the read ends *)
      destruct dn; [by specialize (Hdone eq_refl)|].
      assert (Hk : (prometheus.closes evs <= 1)%nat ∧
                   (¬ viaCtx evs -> prometheus.closes evs = 0%nat)).
      { destruct m; try (destruct Hm as [Hc Hm]; rewrite Hc; split;
                         [lia|tauto]); destruct Hm as [? _]; done. }
      destruct Hk as [Hle Hzero].
      split; [|split].
      * intros _. exists (prometheus.closes evs).
        split; [done|]. split; [done|].
        rewrite viaCtx_snoc_iff by done. intros Hno.
        rewrite (Hzero Hno). done.
      * intros Hc. rewrite viaCtx_snoc_iff by done. by apply Hcd.
      * destruct m; try done. destruct Hm as [? _]. done.
    + (* done is closed *)
      split; [|split; [done|]].
      * intros _. by apply Hread.
      * done.
    + done.
  - (* the context is cancelled *)
    split; [done|]. split; [done|done].
Qed.

Lemma drained_exec resp ctx sched :
  drained resp (prometheus.exec resp ctx sched).
Proof.
  unfold prometheus.exec.
  generalize (drained_start resp) (inv_start ctx).
  generalize prometheus.start.
  induction sched as [|a sched IH]; intros s Hd Hi; simpl; [done|].
  apply IH; [by eapply drained_step | by apply inv_step].
Qed.

(** When [select] did not take the case of the cancellation, a call that
    has ended gives back what the read gave before any [Close]. *)
Lemma exec_drain_first resp ctx sched b e :
  prometheus.main (prometheus.exec resp ctx sched) = prometheus.Finished b e ->
  ¬ viaCtx (prometheus.events (prometheus.exec resp ctx sched)) ->
  b = (http.ReadAll (http.Body resp) 0).1 ∧
  e = (http.ReadAll (http.Body resp) 0).2 ∧
  prometheus.closes (prometheus.events (prometheus.exec resp ctx sched))
  = 1%nat.
Proof.
  intros Hmain Hno.
  pose proof (inv_exec resp ctx sched) as (Hdone & _ & Hm).
  pose proof (drained_exec resp ctx sched) as (Hread & _ & Hfin).
  rewrite Hmain in Hm, Hfin.
  destruct Hm as [Hdn [(_ & Hvia & _)|[Hcl _]]]; [done|].
  destruct Hfin as [-> He]. rewrite (He Hno).
  destruct Hread as (k & _ & Hb & Hk); [by rewrite (Hdone Hdn)|].
  destruct (Hk Hno) as [-> Herr]. by rewrite Hb, Herr.
Qed.

(** X8: when [select] takes the case of the drain and [Do] ends, it
    returns the response with the bytes and the error of the read, which
    ended before any [Close]; the body was then closed once. *)
Theorem Do_drain_first c sched cx req resp :
  http.Client_Do (prometheus.client c)
    (prometheus.authenticate c (Some cx) req) = (Some resp, None) ->
  let r := prometheus.Do c sched (Some cx) req in
  ¬ viaCtx (prometheus.history r) ->
  prometheus.result r ≠ Pending ->
  prometheus.result r
  = Return (Some resp) (http.ReadAll (http.Body resp) 0).1
      (http.ReadAll (http.Body resp) 0).2 ∧
  prometheus.closes (prometheus.history r) = 1%nat.
Proof.
  intros Hrt r. subst r. unfold prometheus.Do. rewrite Hrt. simpl.
  destruct (prometheus.main (prometheus.exec resp cx sched))
    as [| | | | | |b e] eqn:Hmain; try done.
  intros Hno _.
  destruct (exec_drain_first resp cx sched b e Hmain Hno) as (-> & -> & Hcl).
  done.
Qed.

Lemma Do_drain_first_witness :
  prometheus.result
    (prometheus.Do (sample.client EmptyString EmptyString EmptyString
                      200 "{}")
       sample.drainOnly (Some sample.canceled) sample.request)
  = Return (Some (sample.response 200 "{}")) "{}" None.
Proof.
  apply (Do_drain_first
           (sample.client EmptyString EmptyString EmptyString 200 "{}")
           sample.drainOnly sample.canceled sample.request
           (sample.response 200 "{}")).
  - reflexivity.
  - vm_compute. intros H. inversion H as [|? ? ? H']; subst.
    inversion H' as [|? ? ? H'']; subst.
    inversion H'' as [|? ? ? H''']; subst. inversion H'''.
  - vm_compute. discriminate.
Defined.

Lemma ctxDone_step resp ctx s a :
  a ≠ prometheus.Cancel ->
  prometheus.ctxDone (prometheus.step resp ctx s a) = prometheus.ctxDone s.
Proof.
  intros Ha. destruct a as [prefer| |]; [| |done]; simpl.
  - unfold prometheus.stepMain.
    destruct (prometheus.main s); simpl; try done.
    + destruct (prometheus.ctxDone s && _); [done|].
      by destruct (prometheus.done s).
    + by destruct (prometheus.done s).
  - unfold prometheus.stepDrain. by destruct (prometheus.drain s).
Qed.

Lemma ctxDone_exec resp ctx sched :
  prometheus.Cancel ∉ sched ->
  prometheus.ctxDone (prometheus.exec resp ctx sched) = false.
Proof.
  unfold prometheus.exec.
  assert (Hs : prometheus.ctxDone prometheus.start = false) by done.
  revert Hs. generalize prometheus.start.
  induction sched as [|a sched IH]; intros s Hs Hno; simpl; [done|].
  apply not_elem_of_cons in Hno as [Ha Hno].
  apply IH; [|done]. rewrite ctxDone_step; [done|]. by intros ->.
Qed.

(** X9: as long as the context is not cancelled, [Do] does not close the
    body before the read has ended: a call that ends returns the bytes
    and the error of an undisturbed read, and has closed the body once. *)
Theorem Do_not_cancelled c sched cx req resp :
  http.Client_Do (prometheus.client c)
    (prometheus.authenticate c (Some cx) req) = (Some resp, None) ->
  prometheus.Cancel ∉ sched ->
  let r := prometheus.Do c sched (Some cx) req in
  prometheus.result r ≠ Pending ->
  prometheus.result r
  = Return (Some resp) (http.ReadAll (http.Body resp) 0).1
      (http.ReadAll (http.Body resp) 0).2 ∧
  prometheus.closes (prometheus.history r) = 1%nat.
Proof.
  intros Hrt Hno r. subst r. unfold prometheus.Do. rewrite Hrt. simpl.
  destruct (prometheus.main (prometheus.exec resp cx sched))
    as [| | | | | |b e] eqn:Hmain; try done.
  intros _.
  pose proof (drained_exec resp cx sched) as (_ & Hcd & _).
  specialize (Hcd (ctxDone_exec resp cx sched Hno)).
  destruct (exec_drain_first resp cx sched b e Hmain Hcd) as (-> & -> & Hcl).
  done.
Qed.

Lemma Do_not_cancelled_witness :
  prometheus.closes
    (prometheus.history
       (prometheus.Do (sample.client EmptyString EmptyString EmptyString
                         200 "{}")
          sample.drainOnly (Some sample.canceled) sample.request))
  = 1%nat.
Proof.
  apply (Do_not_cancelled
           (sample.client EmptyString EmptyString EmptyString 200 "{}")
           sample.drainOnly sample.canceled sample.request
           (sample.response 200 "{}")).
  - reflexivity.
  - unfold sample.drainOnly. rewrite !not_elem_of_cons.
    repeat split; try discriminate. apply not_elem_of_nil.
  - vm_compute. discriminate.
Defined.

(** X10: [Do] never returns a response before the drain has ended its
    read: the bytes returned are those the read gave, and the read ended
    after at most one [Close] of the body. *)
Theorem Do_after_drain c sched cx req resp0 resp b e :
  http.Client_Do (prometheus.client c)
    (prometheus.authenticate c (Some cx) req) = (Some resp0, None) ->
  let r := prometheus.Do c sched (Some cx) req in
  prometheus.result r = Return resp b e ->
  resp = Some resp0 ∧
  drainStored (prometheus.history r) ∧
  ∃ k, (k <= 1)%nat ∧ b = (http.ReadAll (http.Body resp0) k).1.
Proof.
  intros Hrt r. subst r. unfold prometheus.Do. rewrite Hrt. simpl.
  pose proof (inv_exec resp0 cx sched) as (Hdone & Hst & Hm).
  pose proof (drained_exec resp0 cx sched) as (Hread & _ & Hfin).
  destruct (prometheus.main (prometheus.exec resp0 cx sched))
    as [| | | | | |b' e'] eqn:Hmain; try done.
  intros [= <- <- <-]. split; [done|].
  assert (Hd : prometheus.drain (prometheus.exec resp0 cx sched)
               ≠ prometheus.Reading).
  { destruct Hm as [Hdn _]. by rewrite (Hdone Hdn). }
  split; [by apply Hst|].
  destruct (Hread Hd) as (k & Hk & Hb & _). destruct Hfin as [-> _].
  by exists k.
Qed.

Lemma Do_after_drain_witness :
  drainStored
    (prometheus.history
       (prometheus.Do (sample.client EmptyString EmptyString EmptyString
                         200 "{}")
          sample.cancelThenDrain (Some sample.canceled) sample.request)).
Proof.
  apply (Do_after_drain
           (sample.client EmptyString EmptyString EmptyString 200 "{}")
           sample.cancelThenDrain sample.canceled sample.request
           (sample.response 200 "{}")
           (Some (sample.response 200 "{}")) EmptyString
           (Some (errorString "http: read on closed response body"))).
  - reflexivity.
  - reflexivity.
Defined.

(* ===================================================================== *)
(** * [Proxy] *)
(* ===================================================================== *)



(** X12: the timeout [Proxy] gives to [grequests] is the configured
    number of seconds in nanoseconds exactly when that number is between
    -9223372036 and 9223372036; beyond, the product overflows.  The
    certificate of the server is never verified, and parameters and data
    go on as they came. *)
Theorem Proxy_options c params data :
  let ro := prometheus.requestOptions c params data in
  (grequests.RequestTimeout ro = prometheus.timeout c * 1000000000 ↔
   -9223372036 <= prometheus.timeout c <= 9223372036) ∧
  grequests.InsecureSkipVerify ro = true ∧
  grequests.Params ro = params ∧
  grequests.Data ro = data.
Proof.
  simpl. split; [|done]. unfold prometheus.seconds.
  pose proof (Z.mod_pos_bound (prometheus.timeout c * 1000000000 + 2 ^ 63)
                (2 ^ 64) ltac:(lia)) as Hb.
  split.
  - intros H. lia.
  - intros H. rewrite Z.mod_small by lia. lia.
Qed.

(** X13: [Proxy] sends no credentials at all exactly when there is no
    bearer token and the user name or the password is empty; a user name
    without a password is not used. *)
Theorem Proxy_unauthenticated c params data :
  let ro := prometheus.requestOptions c params data in
  (grequests.Auth ro = [] ∧ grequests.Headers ro = ∅) ↔
  (prometheus.username c = EmptyString ∨
   prometheus.password c = EmptyString) ∧
  prometheus.bearerToken c = EmptyString.
Proof.
  simpl. unfold prometheus.requestOptions; simpl.
  destruct (decide (prometheus.username c = EmptyString)) as [Hu|Hu];
    destruct (decide (prometheus.password c = EmptyString)) as [Hp|Hp];
    destruct (decide (prometheus.bearerToken c = EmptyString)) as [Ht|Ht];
    rewrite ?(bool_decide_eq_true_2 _ Hu), ?(bool_decide_eq_false_2 _ Hu),
      ?(bool_decide_eq_true_2 _ Hp), ?(bool_decide_eq_false_2 _ Hp),
      ?(bool_decide_eq_true_2 _ Ht), ?(bool_decide_eq_false_2 _ Ht);
    simpl; split; try tauto; try (intros [? ?]; done).
  all: intros [_ H]; exfalso; revert H; apply insert_non_empty.
Qed.

(* ===================================================================== *)
(** * The Prometheus v1 wrapper: every answer *)
(* ===================================================================== *)

(** What the wrapped client reports is passed on as it is: its
    error with its response and body, and nothing is decoded. *)
Theorem v1_Do_passes_error unmarshal c ctx req resp body e :
  prometheus.Client_Do c ctx req = Return resp body (Some e) ->
  v1.Do unmarshal c ctx req = Return resp body (Some e).
Proof. intros Hdo. unfold v1.Do. rewrite Hdo. by destruct resp. Qed.

Lemma v1_Do_passes_error_witness :
  let c := {| prometheus.Client_URL := fun _ _ => sample.base;
              prometheus.Client_Do := fun _ _ =>
                Return None EmptyString (Some (errorString "timeout"));
              prometheus.Client_Proxy := fun _ _ _ _ => (None, None) |} in
  v1.Do sample.unmarshal c None sample.request
  = Return None EmptyString (Some (errorString "timeout")).
Proof.
  intros c.
  apply (v1_Do_passes_error sample.unmarshal c None sample.request
           None EmptyString (errorString "timeout")).
  reflexivity.
Defined.

(** X14: after a successful round trip the wrapper reports no error
    exactly when the status code is a 2xx code and the body decodes as an
    envelope whose status is not "error" (any other status, an empty one
    too, counts as success); it then returns the data of the envelope. *)
Theorem v1_Do_no_error unmarshal c ctx req resp body r data :
  prometheus.Client_Do c ctx req = Return (Some resp) body None ->
  v1.Do unmarshal c ctx req = Return r data None ↔
  r = Some resp ∧
  Z.quot (http.StatusCode resp) 100 = 2 ∧
  ∃ env, unmarshal body = inl env ∧ v1.Status env ≠ "error" ∧
         data = v1.Data env.
Proof.
  intros Hdo. unfold v1.Do. rewrite Hdo. unfold v1.statusAPIError.
  destruct (Z.eqb_spec (Z.quot (http.StatusCode resp) 100) 2) as [Hq|Hq];
    destruct (Z.eqb_spec (http.StatusCode resp) 422) as [Hc|Hc]; simpl.
  - rewrite Hc in Hq. done.
  - destruct (unmarshal body) as [env|e].
    + destruct (bool_decide_reflect (v1.Status env = "error")) as [Hs|Hs];
        simpl.
      * split; [done|]. intros (_ & _ & env' & [= <-] & Hs' & _). done.
      * split.
        -- intros [= <- <-]. split; [done|]. split; [done|]. by exists env.
        -- intros (-> & _ & env' & [= <-] & _ & ->). done.
    + split; [done|]. intros (_ & _ & env' & [=] & _).
  - destruct (unmarshal body) as [env|e].
    + destruct (bool_decide_reflect (v1.Status env = "error")); simpl;
        (split; [done|]); intros (_ & Hq' & _); done.
    + split; [done|]. intros (_ & Hq' & _). done.
  - split; [done|]. intros (_ & Hq' & _). done.
Qed.

Lemma v1_Do_no_error_witness :
  v1.Do sample.unmarshal (sample.answering 204 sample.successBody)
    None sample.request
  = Return (Some (sample.response 204 sample.successBody)) "[]" None.
Proof.
  apply (v1_Do_no_error sample.unmarshal
           (sample.answering 204 sample.successBody) None sample.request
           (sample.response 204 sample.successBody) sample.successBody);
    [reflexivity|].
  split; [done|]. split; [done|]. by exists sample.success.
Defined.

(** X15: after a successful round trip every error of the wrapper is an
    [Error] of the API.  Its kind is bad_response, with the raw body
    when the status code is refused or the body does not decode, unless
    the status code is 422 and the envelope says "error": only then do
    kind and message come from the envelope. *)
Theorem v1_Do_errors unmarshal c ctx req resp body r data err :
  prometheus.Client_Do c ctx req = Return (Some resp) body None ->
  v1.Do unmarshal c ctx req = Return r data (Some err) ->
  (decodes (http.StatusCode resp) = false ∧ data = body ∧
   err = v1Error v1.ErrBadResponse
           ("bad response code " +:+ fmt.d (http.StatusCode resp))) ∨
  (∃ e, unmarshal body = inr e ∧ data = body ∧
        err = v1Error v1.ErrBadResponse (error_Error e)) ∨
  (∃ env, unmarshal body = inl env ∧ data = v1.Data env ∧
          ((http.StatusCode resp = 422 ∧ v1.Status env = "error" ∧
            err = v1Error (v1.ErrorType_ env) (v1.Error env)) ∨
           ((http.StatusCode resp = 422 ↔ v1.Status env ≠ "error") ∧
            err = v1Error v1.ErrBadResponse
                    "inconsistent body for response code"))).
Proof.
  intros Hdo. unfold v1.Do. rewrite Hdo, decodes_guard.
  destruct (decodes (http.StatusCode resp)) eqn:Hdec; simpl.
  - destruct (unmarshal body) as [env|e].
    + unfold v1.statusAPIError.
      destruct (Z.eqb_spec (http.StatusCode resp) 422) as [Hc|Hc];
        destruct (bool_decide_reflect (v1.Status env = "error")) as [Hs|Hs];
        simpl; intros [= <- <- <-]; right; right; exists env;
        (split; [done|]); (split; [done|]).
      * by left.
      * right. split; [|done]. tauto.
      * right. split; [|done]. tauto.
    + intros [= <- <- <-]. right; left. by exists e.
  - intros [= <- <- <-]. by left.
Qed.

Lemma v1_Do_errors_witness :
  let body := "<html>" in
  let err := v1Error "bad_response" "unexpected end of JSON input" in
  (decodes 200 = false ∧ body = body ∧
   err = v1Error v1.ErrBadResponse ("bad response code " +:+ fmt.d 200)) ∨
  (∃ e, sample.unmarshal body = inr e ∧ body = body ∧
        err = v1Error v1.ErrBadResponse (error_Error e)) ∨
  (∃ env, sample.unmarshal body = inl env ∧ body = v1.Data env ∧
          (((200 : Z) = 422 ∧ v1.Status env = "error" ∧
            err = v1Error (v1.ErrorType_ env) (v1.Error env)) ∨
           (((200 : Z) = 422 ↔ v1.Status env ≠ "error") ∧
            err = v1Error v1.ErrBadResponse
                    "inconsistent body for response code"))).
Proof.
  intros body err.
  apply (v1_Do_errors sample.unmarshal (sample.answering 200 body) None
           sample.request (sample.response 200 body) body
           (Some (sample.response 200 body)) body err);
    reflexivity.
Defined.

(** After a successful round trip: the answer of the wrapper, case by
    case. *)
Lemma v1_Do_table unmarshal c ctx req resp body :
  prometheus.Client_Do c ctx req = Return (Some resp) body None ->
  v1.Do unmarshal c ctx req =
    if decodes (http.StatusCode resp) then
      match unmarshal body with
      | inr e =>
          Return (Some resp) body
            (Some (v1Error v1.ErrBadResponse (error_Error e)))
      | inl env =>
          Return (Some resp) (v1.Data env)
            (if bool_decide (v1.Status env = "error") then
               if http.StatusCode resp =? 422
               then Some (v1Error (v1.ErrorType_ env) (v1.Error env))
               else Some (v1Error v1.ErrBadResponse
                            "inconsistent body for response code")
             else
               if http.StatusCode resp =? 422
               then Some (v1Error v1.ErrBadResponse
                            "inconsistent body for response code")
               else None)
      end
    else
      Return (Some resp) body
        (Some (v1Error v1.ErrBadResponse
                 ("bad response code " +:+ fmt.d (http.StatusCode resp)))).
Proof.
  intros Hdo. unfold v1.Do. rewrite Hdo, decodes_guard.
  destruct (decodes (http.StatusCode resp)); simpl; [|done].
  destruct (unmarshal body) as [env|e]; [|done].
  unfold v1.statusAPIError.
  by destruct (http.StatusCode resp =? 422),
    (bool_decide (v1.Status env = "error")).
Qed.

(* ===================================================================== *)
(** * The bindings of Prometheus *)
(* ===================================================================== *)

Section V1Bindings.

Variables Scalar Vector Matrix Metric : Type.
Variable unmarshalTyped : string -> (v1.ValueType * string) + error.
Variable unmarshalScalar : string -> Scalar * option error.
Variable unmarshalVector : string -> Vector * option error.
Variable unmarshalMatrix : string -> Matrix * option error.
Variable unmarshalLabelValues : string -> list string * option error.
Variable unmarshalSeries : string -> list Metric * option error.
Variable checkValid : string -> option error.
Variable Time : Type.
Variable Format : Time -> string.
Variable IsZero : Time -> bool.
Variable Unix : Z -> Time.
Variable Now : Time.
Variable formatSeconds : Z -> string.
Variable urlQuery : url.URL -> gmap string (list string).
Variable Encode : gmap string (list string) -> string.
Variable urlString : url.URL -> string.
Variable NewRequest : string -> string -> http.Request + error.

(** Every request can be made. *)
Hypothesis requests : ∀ method u, ∃ req, NewRequest method u = inl req.

Local Abbreviation Health :=
  (v1.Health Time Format Now urlQuery Encode urlString NewRequest).
Local Abbreviation Query :=
  (v1.Query Scalar Vector Matrix unmarshalTyped unmarshalScalar
     unmarshalVector unmarshalMatrix checkValid Time Format urlQuery Encode
     urlString NewRequest).
Local Abbreviation QueryRange :=
  (v1.QueryRange Scalar Vector Matrix unmarshalTyped unmarshalScalar
     unmarshalVector unmarshalMatrix checkValid Time Format IsZero
     formatSeconds urlQuery Encode urlString NewRequest).
Local Abbreviation Labels :=
  (v1.Labels unmarshalLabelValues Time Format Unix urlQuery Encode urlString
     NewRequest).
Local Abbreviation LabelValues :=
  (v1.LabelValues unmarshalLabelValues Time Format Unix urlQuery Encode
     urlString NewRequest).
Local Abbreviation Series :=
  (v1.Series Metric unmarshalSeries Time Format Unix urlQuery Encode
     urlString NewRequest).




End V1Bindings.




(* ===================================================================== *)
(** * The Alertmanager wrapper and its bindings *)
(* ===================================================================== *)

(** X19: the wrapped client gets the request with the header
    [Content-Type] set to the one value application/json, whatever it
    held, and all the rest as it came; its error is passed on as it is;
    and an error made by the wrapper has an empty message: it prints as
    the status code alone. *)
Theorem alertmanager_Do_wraps c ctx req :
  http.ReqHeader (jsonRequest req) !! "Content-Type"
    = Some ["application/json"] ∧
  (∀ key, key ≠ "Content-Type" ->
     http.ReqHeader (jsonRequest req) !! key = http.ReqHeader req !! key) ∧
  (∀ resp body e,
     alertmanager.Client_Do c ctx (jsonRequest req)
       = Return resp body (Some e) ->
     alertmanager.Do c ctx req = Return resp body (Some e)) ∧
  (∀ resp body r data err,
     alertmanager.Client_Do c ctx (jsonRequest req)
       = Return (Some resp) body None ->
     alertmanager.Do c ctx req = Return r data (Some err) ->
     r = Some resp ∧ data = body ∧
     error_Error err
     = " (code: " +:+ fmt.d (http.StatusCode resp) +:+ ")").
Proof.
  split; [|split; [|split]].
  - unfold jsonRequest, http.Header_Set; simpl. by rewrite lookup_insert_eq.
  - intros key Hkey. unfold jsonRequest, http.Header_Set; simpl.
    by rewrite lookup_insert_ne.
  - intros resp body e Hdo. unfold alertmanager.Do.
    fold (jsonRequest req). rewrite Hdo. by destruct resp.
  - intros resp body r data err Hdo. unfold alertmanager.Do.
    fold (jsonRequest req). rewrite Hdo.
    destruct (http.StatusCode resp =? http.StatusOK); simpl; [done|].
    by intros [= <- <- <-].
Qed.

Section AlertmanagerBindings.

Variables ServerStatus Silence Alert ExtendedAlert : Type.
Variable unmarshalStatus : string -> option ServerStatus * option error.
Variable unmarshalSilence : string -> Silence * option error.
Variable unmarshalSilences : string -> list Silence * option error.
Variable unmarshalAlerts : string -> list ExtendedAlert * option error.
Variable unmarshalSilenceID : string -> string * option error.
Variable encodeAlerts : list Alert -> string + error.
Variable encodeSilence : Silence -> string + error.
Variable Encode : gmap string (list string) -> string.
Variable urlString : url.URL -> string.
Variable NewRequest : string -> string -> string -> http.Request + error.

Local Abbreviation Status_Health :=
  (alertmanager.Status_Health urlString NewRequest).
Local Abbreviation Status_Get :=
  (alertmanager.Status_Get ServerStatus unmarshalStatus urlString NewRequest).
Local Abbreviation Alert_List :=
  (alertmanager.Alert_List ExtendedAlert unmarshalAlerts Encode urlString
     NewRequest).
Local Abbreviation Alert_Push :=
  (alertmanager.Alert_Push Alert encodeAlerts urlString NewRequest).
Local Abbreviation Silence_Get :=
  (alertmanager.Silence_Get Silence unmarshalSilence urlString NewRequest).
Local Abbreviation Silence_Expire :=
  (alertmanager.Silence_Expire urlString NewRequest).
Local Abbreviation Silence_Set :=
  (alertmanager.Silence_Set Silence unmarshalSilenceID encodeSilence
     urlString NewRequest).
Local Abbreviation Silence_List :=
  (alertmanager.Silence_List Silence unmarshalSilences Encode urlString
     NewRequest).


(** X21: when the alerts or the silence cannot be encoded, [Push] and
    [Set] make no request and return the error of the encoder as it
    is. *)
Theorem alertmanager_encode_error h ctx :
  (∀ alerts e, encodeAlerts alerts = inr e ->
               Alert_Push h ctx alerts = Reply () (Some e)) ∧
  (∀ sil e, encodeSilence sil = inr e ->
            Silence_Set h ctx sil = Reply EmptyString (Some e)).
Proof.
  split; intros x e He;
    unfold alertmanager.Alert_Push, alertmanager.Silence_Set;
    by rewrite He.
Qed.



End AlertmanagerBindings.


Lemma alertmanager_encode_error_witness :
  alertmanager.Alert_Push string sample.alerts sample.urlString
    sample.newRequestBody (sample.amAnswering 200 "[]") None ["a"]
  = Reply () (Some (errorString "json: unsupported value")).
Proof.
  apply (alertmanager_encode_error string string (fun _ => (EmptyString, None))
           sample.alerts (fun s => inl s) sample.urlString
           sample.newRequestBody (sample.amAnswering 200 "[]") None).
  reflexivity.
Defined.



(* ===================================================================== *)
(** * [Do]: the call ends, and the whole way of an answer *)
(* ===================================================================== *)

Lemma exited_done resp ctx sched :
  prometheus.drain (prometheus.exec resp ctx sched) = prometheus.Exited ->
  prometheus.done (prometheus.exec resp ctx sched) = true.
Proof.
  unfold prometheus.exec.
  assert (Hs : prometheus.drain prometheus.start = prometheus.Exited ->
               prometheus.done prometheus.start = true) by done.
  revert Hs. generalize prometheus.start.
  induction sched as [|a sched IH]; intros s Hs; simpl; [done|].
  apply IH. destruct s as [m d b e dn cd evs]. simpl in *.
  destruct a as [prefer| |]; simpl; [| |done].
  - unfold prometheus.stepMain; simpl.
    destruct m; simpl; try done.
    + destruct (cd && (prefer || negb dn)); [done|]. by destruct dn.
    + by destruct dn.
  - unfold prometheus.stepDrain; simpl. by destruct d.
Qed.

(** X24: [Do] cannot hang.  After a successful round trip and whatever
    happened before, cancellation or not, once the drain is run to its
    end and then the caller, the call has returned. *)
Theorem Do_ends c sched cx req resp :
  http.Client_Do (prometheus.client c)
    (prometheus.authenticate c (Some cx) req) = (Some resp, None) ->
  ∃ body err,
    prometheus.result (prometheus.Do c (sched ++ finish) (Some cx) req)
    = Return (Some resp) body err.
Proof.
  intros Hrt. unfold prometheus.Do. rewrite Hrt. simpl.
  unfold prometheus.exec. rewrite fold_left_app.
  fold (prometheus.exec resp cx sched).
  pose proof (exited_done resp cx sched) as Hex.
  pose proof (inv_exec resp cx sched) as (Hdone & _ & _).
  destruct (prometheus.exec resp cx sched) as [m d b e dn cd evs].
  simpl in *.
  destruct d.
  - destruct dn; [by specialize (Hdone eq_refl)|].
    destruct m, cd; simpl; eauto.
  - destruct dn; [by specialize (Hdone eq_refl)|].
    destruct m, cd; simpl; eauto.
  - rewrite (Hex eq_refl). destruct m, cd; simpl; eauto.
Qed.

Lemma Do_ends_witness :
  ∃ body err,
    prometheus.result
      (prometheus.Do (sample.client EmptyString EmptyString EmptyString
                        200 "{}")
         ([prometheus.Cancel; prometheus.Main true] ++ finish)
         (Some sample.canceled) sample.request)
    = Return (Some (sample.response 200 "{}")) body err.
Proof.
  apply (Do_ends (sample.client EmptyString EmptyString EmptyString 200 "{}")
           [prometheus.Cancel; prometheus.Main true] sample.canceled
           sample.request (sample.response 200 "{}")).
  reflexivity.
Defined.

(** The drain run to its end and then the caller: the caller is at its
    return, whatever came before. *)
Lemma exec_finish resp cx sched :
  ∃ b e, prometheus.main (prometheus.exec resp cx (sched ++ finish))
         = prometheus.Finished b e.
Proof.
  unfold prometheus.exec. rewrite fold_left_app.
  fold (prometheus.exec resp cx sched).
  pose proof (exited_done resp cx sched) as Hex.
  pose proof (inv_exec resp cx sched) as (Hdone & _ & _).
  destruct (prometheus.exec resp cx sched) as [m d b e dn cd evs].
  simpl in *.
  destruct d.
  - destruct dn; [by specialize (Hdone eq_refl)|].
    destruct m, cd; simpl; eauto.
  - destruct dn; [by specialize (Hdone eq_refl)|].
    destruct m, cd; simpl; eauto.
  - rewrite (Hex eq_refl). destruct m, cd; simpl; eauto.
Qed.

Lemma finish_no_cancel sched :
  prometheus.Cancel ∉ sched -> prometheus.Cancel ∉ sched ++ finish.
Proof.
  intros Hno Hin. apply elem_of_app in Hin as [Hin|Hin]; [done|].
  unfold finish in Hin. rewrite !elem_of_cons in Hin.
  rewrite elem_of_nil in Hin. intuition discriminate.
Qed.

(** X25: the whole way of a good answer.  The context is not cancelled,
    the transport answers with status code 200, the read of the body
    gives [body] without error, and [body] is an envelope with the status
    "success": then, whatever the schedule did before, once the drain and
    the caller are run to their end the wrapper over the generic client
    has returned the response, the data of the envelope and no error. *)
Theorem v1_Do_over_client urlString send unmarshal c sched cx req resp
    body env :
  http.Client_Do (prometheus.client c)
    (prometheus.authenticate c (Some cx) req) = (Some resp, None) ->
  prometheus.Cancel ∉ sched ->
  http.StatusCode resp = 200 ->
  http.ReadAll (http.Body resp) 0 = (body, None) ->
  unmarshal body = inl env ->
  v1.Status env = "success" ->
  v1.Do unmarshal (asClient urlString send c (sched ++ finish)) (Some cx) req
  = Return (Some resp) (v1.Data env) None.
Proof.
  intros Hrt Hno Hcode Hread Hun Hst.
  assert (Hres : prometheus.result
                   (prometheus.Do c (sched ++ finish) (Some cx) req)
                 = Return (Some resp) body None).
  { pose proof (drained_exec resp cx (sched ++ finish)) as (_ & Hcd & _).
    specialize (Hcd (ctxDone_exec resp cx (sched ++ finish)
                       (finish_no_cancel sched Hno))).
    unfold prometheus.Do. rewrite Hrt. simpl.
    destruct (exec_finish resp cx sched) as (b' & e' & Hmain).
    rewrite Hmain.
    destruct (exec_drain_first resp cx (sched ++ finish) b' e' Hmain Hcd)
      as (-> & -> & _).
    by rewrite Hread. }
  unfold v1.Do, asClient. simpl.
  rewrite Hres, Hcode, Hun, Hst. reflexivity.
Qed.

Lemma v1_Do_over_client_witness :
  let c := sample.client EmptyString EmptyString EmptyString 200
             sample.successBody in
  v1.Do sample.unmarshal
    (asClient sample.urlString (fun _ _ _ => (None, None)) c
       ([prometheus.Main false; prometheus.Drain] ++ finish))
    (Some sample.canceled) sample.request
  = Return (Some (sample.response 200 sample.successBody)) "[]" None.
Proof.
  intros c.
  apply (v1_Do_over_client sample.urlString (fun _ _ _ => (None, None))
           sample.unmarshal c [prometheus.Main false; prometheus.Drain]
           sample.canceled sample.request
           (sample.response 200 sample.successBody)
           sample.successBody sample.success).
  - reflexivity.
  - rewrite !not_elem_of_cons.
    repeat split; try discriminate. apply not_elem_of_nil.
  - reflexivity.
  - reflexivity.
  - reflexivity.
  - reflexivity.
Defined.
